(** * k8s-controller-poc: the pod/DNS/peer-list controller

    A shallow embedding of [src/controller/controller.py] and the proofs of
    the properties its specification states about it.

    Python [str] values are modelled as [string]; a character stands for the
    code point of the same number, so the development covers strings over
    code points below 256.  Python [dict]s with string keys are [gmap string].
    Attributes that the source tests against [None] are [option]s.

    Every call that leaves the process (HTTP, cluster API, clock, sleep,
    output) is a primitive of a state-and-exception monad over a [World]:
    the world holds the trace of what the process did and a script of what
    the outside answers, so that a statement can quantify over every
    behaviour of the cluster, the DNS API and the sink.

    The two endless loops, [watch_pods]/[_watch_ns] and
    [_periodic_reconciler], and the threads they run in are not modelled;
    what they do per event and per turn is, as [_dispatch_event] and
    [_periodic_reconciler_turn]. *)

From Stdlib Require Import ZArith QArith Ascii String List Sorted Permutation Lia.
From stdpp Require Import base decidable option list sorting gmap strings pretty.

Local Open Scope Z_scope.

(** ** Python string operations used by the controller *)

Module PyStr.

(** [str.isspace] on code points below 256. *)
Definition is_space (c : ascii) : bool :=
  let n := N_of_ascii c in
  ((9 <=? n) && (n <=? 13) || (28 <=? n) && (n <=? 32)
   || (n =? 133) || (n =? 160))%N.

(** [str.lower] on one code point below 256: A-Z and the Latin-1 capitals
    (all of 192..222 but the multiplication sign 215) move up by 32. *)
Definition lower_char (c : ascii) : ascii :=
  let n := N_of_ascii c in
  if ((65 <=? n) && (n <=? 90)
      || (192 <=? n) && (n <=? 222) && negb (n =? 215))%N
  then ascii_of_N (n + 32) else c.

Fixpoint lower (s : string) : string :=
  match s with
  | EmptyString => EmptyString
  | String c s' => String (lower_char c) (lower s')
  end.

(** [s.lstrip(chars)], the characters to drop given as a predicate. *)
Fixpoint lstrip_by (drop : ascii -> bool) (s : string) : string :=
  match s with
  | EmptyString => EmptyString
  | String c s' => if drop c then lstrip_by drop s' else s
  end.

(** [s.rstrip(chars)]. *)
Fixpoint rstrip_by (drop : ascii -> bool) (s : string) : string :=
  match s with
  | EmptyString => EmptyString
  | String c s' =>
      match rstrip_by drop s' with
      | EmptyString => if drop c then EmptyString else String c EmptyString
      | r => String c r
      end
  end.

Definition strip_by (drop : ascii -> bool) (s : string) : string :=
  rstrip_by drop (lstrip_by drop s).

(** [s.strip()] *)
Definition strip (s : string) : string := strip_by is_space s.

(** [s.strip(".")] *)
Definition strip_dots (s : string) : string := strip_by (Ascii.eqb ".") s.

(** [s.split(sep)] for a one-character separator: never the empty list. *)
Fixpoint split (sep : ascii) (s : string) : list string :=
  match s with
  | EmptyString => [EmptyString]
  | String c s' =>
      if Ascii.eqb c sep then EmptyString :: split sep s'
      else match split sep s' with
           | h :: t => String c h :: t
           | [] => [String c EmptyString]
           end
  end.

(** [sep in s] for a one-character [sep]. *)
Fixpoint contains_char (sep : ascii) (s : string) : bool :=
  match s with
  | EmptyString => false
  | String c s' => Ascii.eqb c sep || contains_char sep s'
  end.

(** [s.split(sep, 1)]: the text before the first [sep] and the text after
    it; the whole string and nothing when [sep] does not occur. *)
Fixpoint split_once (sep : ascii) (s : string) : string * option string :=
  match s with
  | EmptyString => (EmptyString, None)
  | String c s' =>
      if Ascii.eqb c sep then (EmptyString, Some s')
      else let '(k, v) := split_once sep s' in (String c k, v)
  end.

(** [needle in hay] *)
Fixpoint is_substring (needle hay : string) : bool :=
  String.prefix needle hay
  || match hay with
     | EmptyString => false
     | String _ hay' => is_substring needle hay'
     end.

(** [sep.join(parts)] *)
Fixpoint join (sep : string) (parts : list string) : string :=
  match parts with
  | [] => EmptyString
  | [p] => p
  | p :: rest => p +:+ sep +:+ join sep rest
  end.

(** [a < b] on [str]: lexicographic on code points. *)
Definition lt (a b : string) : bool := String.ltb a b.

End PyStr.

(** ** Configuration: the module-level constants read from the environment *)

Record Config := {
  PDNS_API_URL : string;
  PDNS_API_KEY : string;
  PDNS_SERVER_ID : string;
  DNS_ZONE : string;
  DNS_TTL : Z;
  DNS_RECORD_PREFIX : string;
  SOURCE_LABEL_SELECTOR : string;
  CONFIGMAP_NAMESPACE : string;
  CONFIGMAP_NAME : string;
  CONFIG_FILE_JSON : string;
  CONFIG_FILE_LIST : string;
  CONFIG_ANNOTATION_BUMP : string;
  VERIFY_SSL : bool;
  RECONCILE_INTERVAL : Z;
  WATCH_NAMESPACES : list string
}.

(** The values the constants take when no environment variable is set. *)
Definition default_config : Config := {|
  PDNS_API_URL := "http://powerdns-api.default.svc.cluster.local:8081";
  PDNS_API_KEY := "changeme";
  PDNS_SERVER_ID := "localhost";
  DNS_ZONE := "example.com.";
  DNS_TTL := 30;
  DNS_RECORD_PREFIX := "";
  SOURCE_LABEL_SELECTOR := "dns=true";
  CONFIGMAP_NAMESPACE := "default";
  CONFIGMAP_NAME := "pod-peers";
  CONFIG_FILE_JSON := "peers.json";
  CONFIG_FILE_LIST := "peers.txt";
  CONFIG_ANNOTATION_BUMP := "peers.lastUpdate";
  VERIFY_SSL := false;
  RECONCILE_INTERVAL := 30;
  WATCH_NAMESPACES := []
|}.

(** ** Pure helpers of the controller *)

Definition _pdns_headers (cfg : Config) : list (string * string) :=
  [("X-API-Key", PDNS_API_KEY cfg); ("Content-Type", "application/json")].

Definition _zone_url (cfg : Config) : string :=
  PDNS_API_URL cfg +:+ "/api/v1/servers/" +:+ PDNS_SERVER_ID cfg
  +:+ "/zones/" +:+ DNS_ZONE cfg.

Definition fqdn_for_pod (cfg : Config) (pod_name : string) : string :=
  let name := PyStr.strip_dots (DNS_RECORD_PREFIX cfg +:+ pod_name) in
  name +:+ "." +:+ DNS_ZONE cfg.

(** One pass through the loop body of [_match_selector] for a clause that
    is already trimmed: [true] when the loop goes on to the next clause,
    [false] when it returns [False].  The two-name unpacking of
    [clause.split("=", 1)] cannot fail, the clause containing a "=". *)
Definition clause_passes (labels : gmap string string) (clause : string) : bool :=
  if decide (clause = "") then true
  else if PyStr.contains_char "=" clause then
    match PyStr.split_once "=" clause with
    | (k, Some v) => bool_decide (labels !! PyStr.strip k = Some (PyStr.strip v))
    | (_, None) => false
    end
  else bool_decide (is_Some (labels !! clause)).

Fixpoint match_clauses (labels : gmap string string) (clauses : list string) : bool :=
  match clauses with
  | [] => true
  | clause :: rest =>
      if clause_passes labels (PyStr.strip clause)
      then match_clauses labels rest else false
  end.

Definition _match_selector (labels : gmap string string) (selector : string) : bool :=
  if decide (selector = "") then true
  else match_clauses labels (PyStr.split "," selector).

(** ** Cluster objects *)

Record V1ObjectMeta := {
  name : string;
  namespace : string;
  labels : option (gmap string string);
  annotations : option (gmap string string);
  resource_version : option string;
  uid : option string
}.

Record V1PodStatus := { pod_ip : option string }.

Record V1Pod := {
  pod_metadata : option V1ObjectMeta;
  pod_status : option V1PodStatus
}.

Record V1ConfigMap := {
  cm_metadata : V1ObjectMeta;
  cm_data : option (gmap string string);
  cm_binary_data : option (gmap string string);
  cm_immutable : option bool
}.

(** A peer: the dict with the keys "name", "namespace" and "ip", in that
    insertion order. *)
Record Peer := { peer_name : string; peer_namespace : string; peer_ip : string }.


(** ** Exceptions, results and the world the controller acts on *)

(** The subclasses of [Exception] that the controller raises or meets; each
    carries the text that [str(e)] gives.  [OtherException] is any other
    subclass, such as the connection errors and timeouts of [requests].
    What is no [Exception], a keyboard interrupt or an exit, is not
    modelled: no handler of the controller catches it. *)
Inductive Exn :=
| RuntimeError (msg : string)
| ValueError (msg : string)
| AttributeError (msg : string)
| ApiException (status : Z) (msg : string)
| OtherException (msg : string).

Definition exn_str (e : Exn) : string :=
  match e with
  | RuntimeError m | ValueError m | AttributeError m
  | ApiException _ m | OtherException m => m
  end.

Inductive Res (A : Type) :=
| Ok (a : A)
| Raise (e : Exn).
Arguments Ok {A} a.
Arguments Raise {A} e.

(** What a call of [requests.get] or [requests.patch] comes back with. *)
Inductive HttpOutcome :=
| HttpResponse (status_code : Z) (text : string)
| HttpFailure (e : Exn).

(** Everything the process does to the outside, in the order it does it. *)
Inductive Effect :=
| EPrint (line : string)
| ETraceback (e : Exn)
| EHttpGet (url : string) (headers : list (string * string)) (verify : bool) (timeout : Z)
| EHttpPatch (url : string) (headers : list (string * string)) (data : string)
    (verify : bool) (timeout : Z)
| ESleep (seconds : Q)
| EListNamespacedPod (ns : string) (label_selector : string)
| EListPodForAllNamespaces (label_selector : string)
| EReadConfigMap (cm_name cm_ns : string)
| EReplaceConfigMap (cm_name cm_ns : string) (body : V1ConfigMap)
| ECreateConfigMap (cm_ns : string) (body : V1ConfigMap).

(** The outside world as a script: what the i-th call of each kind returns. *)
Record Env := {
  http_reply : nat -> HttpOutcome;
  list_reply : nat -> Res (list V1Pod);
  read_reply : nat -> Res V1ConfigMap;
  write_reply : nat -> Res unit;
  clock : nat -> Z
}.

Record World := {
  env : Env;
  trace : list Effect;
  http_n : nat;
  list_n : nat;
  read_n : nat;
  write_n : nat;
  clock_n : nat
}.

Definition emit (e : Effect) (w : World) : World :=
  {| env := env w; trace := trace w ++ [e]; http_n := http_n w; list_n := list_n w;
     read_n := read_n w; write_n := write_n w; clock_n := clock_n w |}.

Definition next_http (w : World) : World :=
  {| env := env w; trace := trace w; http_n := S (http_n w); list_n := list_n w;
     read_n := read_n w; write_n := write_n w; clock_n := clock_n w |}.

Definition next_list (w : World) : World :=
  {| env := env w; trace := trace w; http_n := http_n w; list_n := S (list_n w);
     read_n := read_n w; write_n := write_n w; clock_n := clock_n w |}.

Definition next_read (w : World) : World :=
  {| env := env w; trace := trace w; http_n := http_n w; list_n := list_n w;
     read_n := S (read_n w); write_n := write_n w; clock_n := clock_n w |}.

Definition next_write (w : World) : World :=
  {| env := env w; trace := trace w; http_n := http_n w; list_n := list_n w;
     read_n := read_n w; write_n := S (write_n w); clock_n := clock_n w |}.

Definition next_clock (w : World) : World :=
  {| env := env w; trace := trace w; http_n := http_n w; list_n := list_n w;
     read_n := read_n w; write_n := write_n w; clock_n := S (clock_n w) |}.

(** Computations that act on the world and return or raise. *)
Definition M (A : Type) : Type := World -> Res A * World.

Definition ret {A} (a : A) : M A := fun w => (Ok a, w).

Definition raise {A} (e : Exn) : M A := fun w => (Raise e, w).

Definition bind {A B} (m : M A) (k : A -> M B) : M B :=
  fun w => match m w with
           | (Ok a, w') => k a w'
           | (Raise e, w') => (Raise e, w')
           end.

(** [try: m  except Exception as e: handler(e)] *)
Definition try_except {A} (m : M A) (handler : Exn -> M A) : M A :=
  fun w => match m w with
           | (Ok a, w') => (Ok a, w')
           | (Raise e, w') => handler e w'
           end.

(** The controller's statements are sequenced with stdpp's monad notation:
    [x ← m; k] and [m;; k]. *)
#[global] Instance M_ret : MRet M := @ret.
#[global] Instance M_bind : MBind M := fun A B k m => bind m k.

Definition lift {A} (r : Res A) : M A := fun w => (r, w).

(** *** The primitives: one definition per library call *)

Definition print (line : string) : M unit :=
  fun w => (Ok tt, emit (EPrint line) w).

(** [traceback.print_exc()] in a handler that caught [e]. *)
Definition print_exc (e : Exn) : M unit :=
  fun w => (Ok tt, emit (ETraceback e) w).

(** [time.sleep(seconds)]: a negative length is a [ValueError]. *)
Definition time_sleep (seconds : Q) : M unit :=
  fun w => if Qle_bool 0 seconds then (Ok tt, emit (ESleep seconds) w)
           else (Raise (ValueError "sleep length must be non-negative"), w).

(** [int(time.time())] *)
Definition time_time : M Z :=
  fun w => (Ok (clock (env w) (clock_n w)), next_clock w).

Definition http_result (o : HttpOutcome) : Res (Z * string) :=
  match o with
  | HttpResponse status_code text => Ok (status_code, text)
  | HttpFailure e => Raise e
  end.

Definition requests_get (url : string) (headers : list (string * string))
    (verify : bool) (timeout : Z) : M (Z * string) :=
  fun w => (http_result (http_reply (env w) (http_n w)),
            next_http (emit (EHttpGet url headers verify timeout) w)).

Definition requests_patch (url : string) (headers : list (string * string))
    (data : string) (verify : bool) (timeout : Z) : M (Z * string) :=
  fun w => (http_result (http_reply (env w) (http_n w)),
            next_http (emit (EHttpPatch url headers data verify timeout) w)).

(** [core.list_namespaced_pod(ns, label_selector=...).items] *)
Definition list_namespaced_pod (ns label_selector : string) : M (list V1Pod) :=
  fun w => (list_reply (env w) (list_n w),
            next_list (emit (EListNamespacedPod ns label_selector) w)).

(** [core.list_pod_for_all_namespaces(label_selector=...).items] *)
Definition list_pod_for_all_namespaces (label_selector : string) : M (list V1Pod) :=
  fun w => (list_reply (env w) (list_n w),
            next_list (emit (EListPodForAllNamespaces label_selector) w)).

Definition read_namespaced_config_map (cm_name cm_ns : string) : M V1ConfigMap :=
  fun w => (read_reply (env w) (read_n w),
            next_read (emit (EReadConfigMap cm_name cm_ns) w)).

Definition replace_namespaced_config_map (cm_name cm_ns : string)
    (body : V1ConfigMap) : M unit :=
  fun w => (write_reply (env w) (write_n w),
            next_write (emit (EReplaceConfigMap cm_name cm_ns body) w)).

Definition create_namespaced_config_map (cm_ns : string) (body : V1ConfigMap) : M unit :=
  fun w => (write_reply (env w) (write_n w),
            next_write (emit (ECreateConfigMap cm_ns body) w)).

(** ** [json.dumps] on the values the controller serialises *)

#[local] Unset Elimination Schemes.
Inductive JSON :=
| JStr (s : string)
| JInt (z : Z)
| JBool (b : bool)
| JList (items : list JSON)
| JDict (fields : list (string * JSON)).
#[local] Set Elimination Schemes.

Module PyJson.

Definition dquote : string := String "034" EmptyString.
Definition backslash : string := String "092" EmptyString.
Definition newline : string := String "010" EmptyString.

Definition hex_digit (n : N) : ascii :=
  if (n <? 10)%N then ascii_of_N (48 + n) else ascii_of_N (87 + n).

(** One character of a string under [ensure_ascii=True]. *)
Definition escape_char (c : ascii) : string :=
  let n := N_of_ascii c in
  if (n =? 34)%N then backslash +:+ dquote
  else if (n =? 92)%N then backslash +:+ backslash
  else if (n =? 10)%N then backslash +:+ "n"
  else if (n =? 13)%N then backslash +:+ "r"
  else if (n =? 9)%N then backslash +:+ "t"
  else if (n =? 8)%N then backslash +:+ "b"
  else if (n =? 12)%N then backslash +:+ "f"
  else if ((n <? 32) || (126 <? n))%N then
    backslash +:+ "u00"
    +:+ String (hex_digit (n / 16)) (String (hex_digit (n mod 16)) EmptyString)
  else String c EmptyString.

Fixpoint escape (s : string) : string :=
  match s with
  | EmptyString => EmptyString
  | String c s' => escape_char c +:+ escape s'
  end.

Definition quote (s : string) : string := dquote +:+ escape s +:+ dquote.

Fixpoint spaces (n : nat) : string :=
  match n with
  | O => EmptyString
  | S n' => String " " (spaces n')
  end.

(** The text between two items, before the first and after the last one:
    with [indent] a line break and the indentation of the level, the item
    separator being "," then; without it nothing, the separator being ", ". *)
Definition line_break (indent : option nat) (level : nat) : string :=
  match indent with
  | Some k => newline +:+ spaces (k * level)
  | None => EmptyString
  end.

Definition item_separator (indent : option nat) (level : nat) : string :=
  match indent with
  | Some _ => "," +:+ line_break indent level
  | None => ", "
  end.

Fixpoint dumps_at (indent : option nat) (level : nat) (j : JSON) : string :=
  match j with
  | JStr s => quote s
  | JInt z => pretty z
  | JBool b => if b then "true" else "false"
  | JList [] => "[]"
  | JList items =>
      "[" +:+ line_break indent (S level)
      +:+ PyStr.join (item_separator indent (S level))
            (List.map (dumps_at indent (S level)) items)
      +:+ line_break indent level +:+ "]"
  | JDict [] => "{}"
  | JDict fields =>
      "{" +:+ line_break indent (S level)
      +:+ PyStr.join (item_separator indent (S level))
            (List.map (fun kv => quote (fst kv) +:+ ": "
                                 +:+ dumps_at indent (S level) (snd kv)) fields)
      +:+ line_break indent level +:+ "}"
  end.

(** [json.dumps(j)] and [json.dumps(j, indent=k)] *)
Definition dumps (indent : option nat) (j : JSON) : string := dumps_at indent 0 j.

End PyJson.

Definition peer_json (x : Peer) : JSON :=
  JDict [("name", JStr (peer_name x)); ("namespace", JStr (peer_namespace x));
         ("ip", JStr (peer_ip x))].

Definition peers_json (peers : list Peer) : JSON := JList (List.map peer_json peers).

(** ** The DNS client *)

Definition upsert_payload (name_fqdn ip : string) (ttl : Z) : JSON :=
  JDict [("rrsets", JList [JDict [
    ("name", JStr name_fqdn); ("type", JStr "A"); ("ttl", JInt ttl);
    ("changetype", JStr "REPLACE");
    ("records", JList [JDict [("content", JStr ip); ("disabled", JBool false)]])]])].

Definition delete_payload (name_fqdn : string) : JSON :=
  JDict [("rrsets", JList [JDict [
    ("name", JStr name_fqdn); ("type", JStr "A"); ("changetype", JStr "DELETE")]])].

Definition pdns_upsert_a_record (cfg : Config) (name_fqdn ip : string) (ttl : Z) : M unit :=
  r ← requests_patch (_zone_url cfg) (_pdns_headers cfg)
        (PyJson.dumps None (upsert_payload name_fqdn ip ttl)) (VERIFY_SSL cfg) 10;
  if 400 <=? r.1
  then raise (RuntimeError ("PDNS upsert failed " +:+ pretty r.1 +:+ ": " +:+ r.2))
  else ret tt.

Definition pdns_delete_a_record (cfg : Config) (name_fqdn : string) : M unit :=
  r ← requests_patch (_zone_url cfg) (_pdns_headers cfg)
        (PyJson.dumps None (delete_payload name_fqdn)) (VERIFY_SSL cfg) 10;
  if (400 <=? r.1) && negb (PyStr.is_substring "not found" (PyStr.lower r.2))
  then raise (RuntimeError ("PDNS delete failed " +:+ pretty r.1 +:+ ": " +:+ r.2))
  else ret tt.

Definition pdns_ready (cfg : Config) : M bool :=
  let url := PDNS_API_URL cfg +:+ "/api/v1/servers/" +:+ PDNS_SERVER_ID cfg in
  try_except
    (r ← requests_get url (_pdns_headers cfg) (VERIFY_SSL cfg) 5;
     ret (bool_decide (r.1 = 200)))
    (fun _ => ret false).

(** [range(n)] *)
Definition range (n : Z) : list Z := List.map Z.of_nat (seq 0 (Z.to_nat n)).

(** [str(last)] for the last exception caught, [None] before the first one *)
Definition last_str (last : option Exn) : string :=
  match last with
  | None => "None"
  | Some e => exn_str e
  end.

(** The [for i in range(attempts)] loop of [pdns_upsert_with_retry] over the
    indices still to run, and the two statements after it. *)
Fixpoint upsert_attempts (cfg : Config) (name_fqdn ip : string) (ttl : Z) (backoff : Q)
    (indices : list Z) (last : option Exn) : M bool :=
  match indices with
  | [] =>
      print ("[pdns] upsert failed after retries for " +:+ name_fqdn +:+ ": "
             +:+ last_str last);;
      ret false
  | i :: rest =>
      try_except
        (pdns_upsert_a_record cfg name_fqdn ip ttl;; ret true)
        (fun e =>
           time_sleep (backoff * inject_Z (i + 1))%Q;;
           upsert_attempts cfg name_fqdn ip ttl backoff rest (Some e))
  end.

Definition pdns_upsert_with_retry (cfg : Config) (name_fqdn ip : string) (ttl : Z)
    (attempts : Z) (backoff : Q) : M bool :=
  upsert_attempts cfg name_fqdn ip ttl backoff (range attempts) None.

(** The defaults of the keyword arguments [attempts=6, backoff=2.0]. *)
Definition default_attempts : Z := 6.
Definition default_backoff : Q := 2%Q.


(** ** Listing the pods and projecting them to peers *)

(** [ensure_clients()] builds the process-wide client handle on its first
    call and does nothing the outside sees. *)
Definition ensure_clients : M unit := ret tt.

(** The loop of [list_source_pods] over the watched namespaces. *)
Fixpoint list_each_namespace (cfg : Config) (nss : list string) (pods : list V1Pod)
    : M (list V1Pod) :=
  match nss with
  | [] => ret pods
  | ns :: rest =>
      items ← list_namespaced_pod ns (SOURCE_LABEL_SELECTOR cfg);
      list_each_namespace cfg rest (pods ++ items)
  end.

Definition list_source_pods (cfg : Config) : M (list V1Pod) :=
  ensure_clients;;
  match WATCH_NAMESPACES cfg with
  | [] => list_pod_for_all_namespaces (SOURCE_LABEL_SELECTOR cfg)
  | nss => list_each_namespace cfg nss []
  end.

(** The key of the sort, [(x["namespace"], x["name"])], and [<] on such
    tuples: the first components decide unless they are equal. *)
Definition peer_key (x : Peer) : string * string := (peer_namespace x, peer_name x).

Definition key_lt (a b : string * string) : bool :=
  PyStr.lt a.1 b.1 || (bool_decide (a.1 = b.1) && PyStr.lt a.2 b.2).

(** [list.sort(key=...)] is a stable sort that compares keys with [<] only:
    an element stays behind every earlier element whose key is not greater.
    Its result is the one that insertion from the right gives. *)
Fixpoint sort_insert (x : Peer) (sorted : list Peer) : list Peer :=
  match sorted with
  | [] => [x]
  | y :: rest =>
      if key_lt (peer_key y) (peer_key x) then y :: sort_insert x rest
      else x :: y :: rest
  end.

Fixpoint sort_by_key (l : list Peer) : list Peer :=
  match l with
  | [] => []
  | x :: rest => sort_insert x (sort_by_key rest)
  end.

(** The loop of [build_peers], before the sort.  A pod whose [status] or
    [pod_ip] is missing or empty is skipped; reading [p.metadata.name] of a
    pod without metadata is an [AttributeError]. *)
Fixpoint collect_peers (pods : list V1Pod) (peers : list Peer) : Res (list Peer) :=
  match pods with
  | [] => Ok peers
  | p :: rest =>
      match pod_status p with
      | None => collect_peers rest peers
      | Some st =>
          match pod_ip st with
          | None => collect_peers rest peers
          | Some ip =>
              if decide (ip = "") then collect_peers rest peers
              else match pod_metadata p with
                   | None => Raise (AttributeError
                       "'NoneType' object has no attribute 'name'")
                   | Some md =>
                       collect_peers rest
                         (peers ++ [{| peer_name := name md;
                                       peer_namespace := namespace md;
                                       peer_ip := ip |}])
                   end
          end
      end
  end.

Definition build_peers (pods : list V1Pod) : Res (list Peer) :=
  match collect_peers pods [] with
  | Ok peers => Ok (sort_by_key peers)
  | Raise e => Raise e
  end.

(** ** The peer sink *)

(** The [data] dict of [upsert_configmap]: a later key replaces an equal
    earlier one. *)
Definition sink_data (cfg : Config) (peers : list Peer) : gmap string string :=
  <[CONFIG_FILE_LIST cfg :=
      PyStr.join PyJson.newline (List.map peer_ip peers)
      +:+ (match peers with [] => "" | _ => PyJson.newline end)]>
  (<[CONFIG_FILE_JSON cfg := PyJson.dumps (Some 2%nat) (peers_json peers)]> ∅).

Definition set_annotations (a : option (gmap string string)) (md : V1ObjectMeta)
    : V1ObjectMeta :=
  {| name := name md; namespace := namespace md; labels := labels md;
     annotations := a; resource_version := resource_version md; uid := uid md |}.

Definition set_cm_metadata (md : V1ObjectMeta) (cm : V1ConfigMap) : V1ConfigMap :=
  {| cm_metadata := md; cm_data := cm_data cm; cm_binary_data := cm_binary_data cm;
     cm_immutable := cm_immutable cm |}.

Definition set_cm_data (d : option (gmap string string)) (cm : V1ConfigMap) : V1ConfigMap :=
  {| cm_metadata := cm_metadata cm; cm_data := d; cm_binary_data := cm_binary_data cm;
     cm_immutable := cm_immutable cm |}.

(** [V1ObjectMeta(name=..., namespace=...)] *)
Definition new_meta (nm ns : string) : V1ObjectMeta :=
  {| name := nm; namespace := ns; labels := None; annotations := None;
     resource_version := None; uid := None |}.

(** [V1ConfigMap(metadata=..., data=...)] *)
Definition new_configmap (md : V1ObjectMeta) (d : gmap string string) : V1ConfigMap :=
  {| cm_metadata := md; cm_data := Some d; cm_binary_data := None; cm_immutable := None |}.

Definition upsert_configmap (cfg : Config) (peers : list Peer) : M unit :=
  ensure_clients;;
  let data := sink_data cfg peers in
  let cm_meta := new_meta (CONFIGMAP_NAME cfg) (CONFIGMAP_NAMESPACE cfg) in
  let cm := new_configmap cm_meta data in
  try_except
    (existing ← read_namespaced_config_map (CONFIGMAP_NAME cfg) (CONFIGMAP_NAMESPACE cfg);
     let existing := set_cm_data (Some data) existing in
     let anns := default ∅ (annotations (cm_metadata existing)) in
     now ← time_time;
     let existing :=
       set_cm_metadata
         (set_annotations (Some (<[CONFIG_ANNOTATION_BUMP cfg := pretty now]> anns))
            (cm_metadata existing)) existing in
     replace_namespaced_config_map (CONFIGMAP_NAME cfg) (CONFIGMAP_NAMESPACE cfg) existing)
    (fun e =>
       match e with
       | ApiException status _ =>
           if decide (status = 404) then
             now ← time_time;
             let cm :=
               set_cm_metadata
                 (set_annotations (Some {[CONFIG_ANNOTATION_BUMP cfg := pretty now]})
                    (cm_metadata cm)) cm in
             create_namespaced_config_map (CONFIGMAP_NAMESPACE cfg) cm
           else raise e
       | _ => raise e
       end).

(** ** The reconciler *)

(** The [for peer in peers] loop of [reconcile_all]. *)
Fixpoint upsert_each_peer (cfg : Config) (peers : list Peer) : M unit :=
  match peers with
  | [] => ret tt
  | peer :: rest =>
      let fqdn := fqdn_for_pod cfg (peer_name peer) in
      pdns_upsert_with_retry cfg fqdn (peer_ip peer) (DNS_TTL cfg)
        default_attempts default_backoff;;
      upsert_each_peer cfg rest
  end.

Definition reconcile_all (cfg : Config) (reason : string) : M unit :=
  print ("[reconcile] start (" +:+ reason +:+ ")");;
  pods ← list_source_pods cfg;
  peers ← lift (build_peers pods);
  ready ← pdns_ready cfg;
  (if (ready : bool) then upsert_each_peer cfg peers
   else print "[pdns] API not ready; will retry later");;
  upsert_configmap cfg peers;;
  print ("[reconcile] done peers=" +:+ pretty (length peers)).

(** ** The event handlers and the dispatcher *)


(** [(pod.status and pod.status.pod_ip) or None] *)
Definition reported_ip (pod : V1Pod) : option string :=
  match pod_status pod with
  | None => None
  | Some st =>
      match pod_ip st with
      | None => None
      | Some ip => if decide (ip = "") then None else Some ip
      end
  end.




(** The [try] statement in the body of the [_periodic_reconciler] loop, and
    one turn of that loop. *)
Definition periodic_try (cfg : Config) : M unit :=
  try_except
    (ready ← pdns_ready cfg;
     if (ready : bool) then reconcile_all cfg "periodic" else ret tt)
    print_exc.

Definition _periodic_reconciler_turn (cfg : Config) : M unit :=
  periodic_try cfg;;
  time_sleep (inject_Z (RECONCILE_INTERVAL cfg)).

(** * Notions the stated properties are phrased with *)

Module PyStrSpec.

(** Every character of [s] satisfies [p]. *)
Fixpoint all_chars (p : ascii -> bool) (s : string) : bool :=
  match s with
  | EmptyString => true
  | String c s' => p c && all_chars p s'
  end.

(** The first character of [s], if any, satisfies [p]. *)
Definition head_is (p : ascii -> bool) (s : string) : bool :=
  match s with
  | EmptyString => false
  | String c _ => p c
  end.

(** The last character of [s], if any, satisfies [p]. *)
Fixpoint last_is (p : ascii -> bool) (s : string) : bool :=
  match s with
  | EmptyString => false
  | String c EmptyString => p c
  | String _ s' => last_is p s'
  end.

(** [t] is [s] without the characters of the set [drop] at its two ends. *)
Definition trimmed (drop : ascii -> bool) (s t : string) : Prop :=
  exists lead trail,
    s = lead +:+ t +:+ trail /\ all_chars drop lead = true /\
    all_chars drop trail = true /\ head_is drop t = false /\ last_is drop t = false.

End PyStrSpec.

(** ** The selector, as the specification words it *)

Module SelectorSpec.
Import PyStrSpec.

(** The character [c] occurs in [s]. *)
Definition has_char (c : ascii) (s : string) : Prop :=
  exists l r, s = l +:+ String c r.

(** [pieces] are the clauses of [selector]: the texts between its commas. *)
Definition clauses_of (selector : string) (pieces : list string) : Prop :=
  pieces <> [] /\ PyStr.join "," pieces = selector /\
  Forall (fun p => ~ has_char "," p) pieces.

(** A trimmed clause is satisfied by the labels.  An empty clause is
    skipped; a clause with "=" is cut at its first "=", key and value are
    trimmed, and the label of that key must be that value; a clause without
    "=" asks for the key to be present. *)
Definition clause_holds (labels : gmap string string) (t : string) : Prop :=
  t = ""
  \/ (exists k v k' v', t = k +:+ "=" +:+ v /\ ~ has_char "=" k /\
        trimmed PyStr.is_space k k' /\ trimmed PyStr.is_space v v' /\
        labels !! k' = Some v')
  \/ (t <> "" /\ ~ has_char "=" t /\ is_Some (labels !! t)).

(** The same without the trimming of key and value. *)
Definition clause_holds_untrimmed (labels : gmap string string) (t : string) : Prop :=
  t = ""
  \/ (exists k v, t = k +:+ "=" +:+ v /\ ~ has_char "=" k /\ labels !! k = Some v)
  \/ (t <> "" /\ ~ has_char "=" t /\ is_Some (labels !! t)).

(** Every clause of the selector, trimmed, holds. *)
Definition selector_holds (holds : gmap string string -> string -> Prop)
    (labels : gmap string string) (selector : string) : Prop :=
  forall pieces, clauses_of selector pieces ->
  forall c t, c ∈ pieces -> trimmed PyStr.is_space c t -> holds labels t.

End SelectorSpec.

(** ** The record name, as the specification words it *)

Definition fqdn_plain (cfg : Config) (pod_name : string) : string :=
  DNS_RECORD_PREFIX cfg +:+ pod_name +:+ "." +:+ DNS_ZONE cfg.

Definition config_with_prefix (prefix : string) : Config :=
  {| PDNS_API_URL := PDNS_API_URL default_config;
     PDNS_API_KEY := PDNS_API_KEY default_config;
     PDNS_SERVER_ID := PDNS_SERVER_ID default_config;
     DNS_ZONE := DNS_ZONE default_config;
     DNS_TTL := DNS_TTL default_config;
     DNS_RECORD_PREFIX := prefix;
     SOURCE_LABEL_SELECTOR := SOURCE_LABEL_SELECTOR default_config;
     CONFIGMAP_NAMESPACE := CONFIGMAP_NAMESPACE default_config;
     CONFIGMAP_NAME := CONFIGMAP_NAME default_config;
     CONFIG_FILE_JSON := CONFIG_FILE_JSON default_config;
     CONFIG_FILE_LIST := CONFIG_FILE_LIST default_config;
     CONFIG_ANNOTATION_BUMP := CONFIG_ANNOTATION_BUMP default_config;
     VERIFY_SSL := VERIFY_SSL default_config;
     RECONCILE_INTERVAL := RECONCILE_INTERVAL default_config;
     WATCH_NAMESPACES := WATCH_NAMESPACES default_config |}.

(** ** Worlds to run the controller in *)

(** The world before the process has done anything. *)
Definition initial (e : Env) : World :=
  {| env := e; trace := []; http_n := 0; list_n := 0; read_n := 0; write_n := 0;
     clock_n := 0 |}.

(** A cluster that lists [pods], whose sink document is [sink] if any, and a
    DNS API that answers every request with [dns]. *)
Definition steady_env (pods : list V1Pod) (sink : Res V1ConfigMap) (dns : HttpOutcome)
    : Env :=
  {| http_reply := fun _ => dns;
     list_reply := fun _ => Ok pods;
     read_reply := fun _ => sink;
     write_reply := fun _ => Ok tt;
     clock := fun _ => 1700000000 |}.

Definition not_found : Exn := ApiException 404 "(404) Reason: Not Found".

(** ** The DNS client, as the specification words it *)

(** [text] has a part that is [needle] up to the case of its letters. *)
Definition mentions (needle text : string) : Prop :=
  exists l m r, text = l +:+ m +:+ r /\ PyStr.lower m = PyStr.lower needle.

(** An answer that makes [pdns_upsert_a_record] raise, and one that lets it
    return. *)
Definition upsert_failing (o : HttpOutcome) : Prop :=
  match o with
  | HttpResponse status_code _ => 400 <= status_code
  | HttpFailure _ => True
  end.

Definition upsert_succeeding (o : HttpOutcome) : Prop :=
  match o with
  | HttpResponse status_code _ => status_code < 400
  | HttpFailure _ => False
  end.

(** The first [n] requests from now on fail and the one after them succeeds. *)
Definition fails_then_succeeds (n : nat) (w : World) : Prop :=
  (forall i, (i < n)%nat -> upsert_failing (http_reply (env w) (http_n w + i))) /\
  upsert_succeeding (http_reply (env w) (http_n w + n)).

(** ** Reading the trace *)

Definition is_patch (e : Effect) : bool :=
  match e with
  | EHttpPatch _ _ _ _ _ => true
  | _ => false
  end.

(** The number of PATCH requests sent: one per call of
    [pdns_upsert_a_record] or [pdns_delete_a_record]. *)
Definition patch_count (tr : list Effect) : nat := length (filter is_patch tr).

(** The line a reconciliation pass opens with. *)
Definition is_pass_start (e : Effect) : bool :=
  match e with
  | EPrint line => String.prefix "[reconcile] start (" line
  | _ => false
  end.


(** The documents written to the sink, oldest first. *)
Definition written (e : Effect) : option V1ConfigMap :=
  match e with
  | EReplaceConfigMap _ _ body | ECreateConfigMap _ body => Some body
  | _ => None
  end.

(** Running [m] adds effects to the trace, all of them in [P]. *)
Definition grows {A} (P : Effect -> Prop) (m : M A) : Prop :=
  forall w r w', m w = (r, w') ->
  exists tr, trace w' = trace w ++ tr /\ Forall P tr.

(** [m] returns, whatever the world. *)
Definition safe {A} (m : M A) : Prop :=
  forall w, exists a w', m w = (Ok a, w').

(** A DNS API that answers 503 to its first [n] requests and 204 from then
    on, in front of a cluster without pods and without a sink document. *)
Definition flaky_env (n : nat) : Env :=
  {| http_reply := fun i => if (i <? n)%nat
                            then HttpResponse 503 "Service Unavailable"
                            else HttpResponse 204 "";
     list_reply := fun _ => Ok [];
     read_reply := fun _ => Raise not_found;
     write_reply := fun _ => Ok tt;
     clock := fun _ => 1700000000 |}.

(** ** The projection, as the specification words it *)

(** The peer of a pod that reports an address. *)
Definition projected (p : V1Pod) : option Peer :=
  match reported_ip p, pod_metadata p with
  | Some ip, Some md =>
      Some {| peer_name := name md; peer_namespace := namespace md; peer_ip := ip |}
  | _, _ => None
  end.

(** A pod that reports an address and has no metadata to name it by. *)
Definition nameless (p : V1Pod) : bool :=
  match reported_ip p, pod_metadata p with
  | Some _, None => true
  | _, _ => false
  end.

(** [x] may stand before [y] in the ascending order of [(namespace, name)]. *)
Definition key_le (x y : Peer) : Prop := key_lt (peer_key y) (peer_key x) = false.


(** A pod as the cluster lists it. *)
Definition pod_of (ns nm : string) (lbls : gmap string string) (ip : option string)
    : V1Pod :=
  {| pod_metadata := Some {| name := nm; namespace := ns; labels := Some lbls;
                             annotations := None; resource_version := None;
                             uid := None |};
     pod_status := Some {| pod_ip := ip |} |}.

(** Three pods of two namespaces, the second still without an address. *)
Definition sample_pods : list V1Pod :=
  [pod_of "b" "p3" {["dns" := "true"]} (Some "10.0.0.3");
   pod_of "a" "p2" {["dns" := "true"]} None;
   pod_of "a" "p1" {["dns" := "true"]} (Some "10.0.0.1")].

(** Two listings of one pod name with different addresses, in both orders. *)
Definition twin_pods : list V1Pod :=
  [pod_of "a" "p" ∅ (Some "10.0.0.1"); pod_of "a" "p" ∅ (Some "10.0.0.2")].


(** An effect that is no DNS write and begins no pass. *)
Definition calm (e : Effect) : Prop := is_patch e = false /\ is_pass_start e = false.

(** An effect that begins no pass. *)
Definition quiet (e : Effect) : Prop := is_pass_start e = false.

(** ** The sink, as the specification words it *)

Definition annotations_of (cm : V1ConfigMap) : gmap string string :=
  default ∅ (annotations (cm_metadata cm)).

(** The document [new] is [old] but for its data and for the annotation
    under [key]. *)
Definition carried_over (key : string) (old new : V1ConfigMap) : Prop :=
  name (cm_metadata new) = name (cm_metadata old) /\
  namespace (cm_metadata new) = namespace (cm_metadata old) /\
  labels (cm_metadata new) = labels (cm_metadata old) /\
  resource_version (cm_metadata new) = resource_version (cm_metadata old) /\
  uid (cm_metadata new) = uid (cm_metadata old) /\
  cm_binary_data new = cm_binary_data old /\
  cm_immutable new = cm_immutable old /\
  forall k, k <> key -> annotations_of new !! k = annotations_of old !! k.

(** Every address on a line of its own. *)
Definition ip_lines (ips : list string) : string :=
  foldr (fun ip acc => ip +:+ PyJson.newline +:+ acc) "" ips.

(** The data [d] of a sink document is the two fields of the peer list and
    nothing else: the flat field with every address on a line of its own,
    and the structured field with the JSON text (when the two field names
    are configured equal, the flat field is the one there is). *)
Definition holds_peer_fields (cfg : Config) (peers : list Peer) (d : gmap string string)
    : Prop :=
  d !! CONFIG_FILE_LIST cfg = Some (ip_lines (peer_ip <$> peers)) /\
  (CONFIG_FILE_JSON cfg <> CONFIG_FILE_LIST cfg ->
   d !! CONFIG_FILE_JSON cfg = Some (PyJson.dumps (Some 2%nat) (peers_json peers))) /\
  forall k, k <> CONFIG_FILE_JSON cfg -> k <> CONFIG_FILE_LIST cfg -> d !! k = None.

(** The document [body] is sent to the sink in the trace [tr]. *)
Definition writes (body : V1ConfigMap) (tr : list Effect) : Prop :=
  exists e, e ∈ tr /\ written e = Some body.

(** A sink document of an earlier pass, with an annotation and a label of
    its owner's. *)
Definition sample_sink : V1ConfigMap :=
  {| cm_metadata := {| name := "pod-peers"; namespace := "default";
                       labels := Some {["app" := "mesh"]};
                       annotations := Some {["owner" := "team-a";
                                             "peers.lastUpdate" := "1690000000"]};
                       resource_version := Some "4711";
                       uid := Some "0c5f7a5e" |};
     cm_data := Some {["peers.json" := "[]"; "peers.txt" := ""]};
     cm_binary_data := None;
     cm_immutable := None |}.

(** The sample document with a third data field, put there by its owner. *)
Definition noted_sink : V1ConfigMap :=
  {| cm_metadata := cm_metadata sample_sink;
     cm_data := Some {["owner-notes" := "do not edit by hand";
                       "peers.json" := "[]"; "peers.txt" := ""]};
     cm_binary_data := None;
     cm_immutable := None |}.

(** The field of a written document that its owner put there, if it is
    still there. *)
Definition owner_notes (cm : V1ConfigMap) : option string :=
  cm_data cm ≫= (.!! "owner-notes").

(** An answer to the readiness probe that makes [pdns_ready] say no. *)
Definition probe_not_ready (o : HttpOutcome) : Prop :=
  match o with
  | HttpResponse status_code _ => status_code <> 200
  | HttpFailure _ => True
  end.

(** The sink serves the next publish: the document is there or is reported
    missing with a 404, and the write that follows goes through. *)
Definition sink_accepts (w : World) : Prop :=
  ((exists existing, read_reply (env w) (read_n w) = Ok existing) \/
   (exists msg, read_reply (env w) (read_n w) = Raise (ApiException 404 msg))) /\
  write_reply (env w) (write_n w) = Ok tt.

(** The world once a pass has printed its start line. *)
Definition pass_begun (reason : string) (w : World) : World :=
  emit (EPrint ("[reconcile] start (" +:+ reason +:+ ")")) w.

(** The peers of the sample pods, in order. *)
Definition sample_peers : list Peer :=
  [{| peer_name := "p1"; peer_namespace := "a"; peer_ip := "10.0.0.1" |};
   {| peer_name := "p3"; peer_namespace := "b"; peer_ip := "10.0.0.3" |}].

(** The sample cluster without a sink document, its DNS API unreachable. *)
Definition dns_down : World :=
  initial (steady_env sample_pods (Raise not_found)
             (HttpFailure (OtherException "Connection refused"))).

(** The sample cluster with a healthy DNS API and a sink that answers every
    read with a 500. *)
Definition sink_broken : World :=
  initial (steady_env sample_pods
             (Raise (ApiException 500 "(500) Reason: Internal Server Error"))
             (HttpResponse 200 "")).


(** ** The dispatcher, as the specification words it *)







(** * Further notions, for the properties beyond the stated ones *)

(** ** Reading more out of the trace *)

Definition slept (e : Effect) : option Q :=
  match e with
  | ESleep seconds => Some seconds
  | _ => None
  end.

(** The lengths of the sleeps, oldest first. *)
Definition sleeps (tr : list Effect) : list Q := omap slept tr.

(** The PATCH requests, oldest first. *)
Definition patches (tr : list Effect) : list Effect := filter is_patch tr.

Definition is_list_call (e : Effect) : bool :=
  match e with
  | EListNamespacedPod _ _ | EListPodForAllNamespaces _ => true
  | _ => false
  end.

(** The request that upserts the record of a peer. *)
Definition upsert_request (cfg : Config) (peer : Peer) : Effect :=
  EHttpPatch (_zone_url cfg) (_pdns_headers cfg)
    (PyJson.dumps None
       (upsert_payload (fqdn_for_pod cfg (peer_name peer)) (peer_ip peer) (DNS_TTL cfg)))
    (VERIFY_SSL cfg) 10.

(** The readiness probe as it goes out. *)
Definition probe_request (cfg : Config) : Effect :=
  EHttpGet (PDNS_API_URL cfg +:+ "/api/v1/servers/" +:+ PDNS_SERVER_ID cfg)
    (_pdns_headers cfg) (VERIFY_SSL cfg) 5.

(** A selector character that is a blank or a comma. *)
Definition blank_or_comma (c : ascii) : bool := PyStr.is_space c || Ascii.eqb c ",".

(** ** One turn of a watch loop *)



(** ** More worlds to run the controller in *)

(** The default configuration but for the namespaces to watch. *)
Definition config_with_namespaces (nss : list string) : Config :=
  {| PDNS_API_URL := PDNS_API_URL default_config;
     PDNS_API_KEY := PDNS_API_KEY default_config;
     PDNS_SERVER_ID := PDNS_SERVER_ID default_config;
     DNS_ZONE := DNS_ZONE default_config;
     DNS_TTL := DNS_TTL default_config;
     DNS_RECORD_PREFIX := DNS_RECORD_PREFIX default_config;
     SOURCE_LABEL_SELECTOR := SOURCE_LABEL_SELECTOR default_config;
     CONFIGMAP_NAMESPACE := CONFIGMAP_NAMESPACE default_config;
     CONFIGMAP_NAME := CONFIGMAP_NAME default_config;
     CONFIG_FILE_JSON := CONFIG_FILE_JSON default_config;
     CONFIG_FILE_LIST := CONFIG_FILE_LIST default_config;
     CONFIG_ANNOTATION_BUMP := CONFIG_ANNOTATION_BUMP default_config;
     VERIFY_SSL := VERIFY_SSL default_config;
     RECONCILE_INTERVAL := RECONCILE_INTERVAL default_config;
     WATCH_NAMESPACES := nss |}.

(** The default configuration but for the interval of the timer. *)
Definition config_with_interval (seconds : Z) : Config :=
  {| PDNS_API_URL := PDNS_API_URL default_config;
     PDNS_API_KEY := PDNS_API_KEY default_config;
     PDNS_SERVER_ID := PDNS_SERVER_ID default_config;
     DNS_ZONE := DNS_ZONE default_config;
     DNS_TTL := DNS_TTL default_config;
     DNS_RECORD_PREFIX := DNS_RECORD_PREFIX default_config;
     SOURCE_LABEL_SELECTOR := SOURCE_LABEL_SELECTOR default_config;
     CONFIGMAP_NAMESPACE := CONFIGMAP_NAMESPACE default_config;
     CONFIGMAP_NAME := CONFIGMAP_NAME default_config;
     CONFIG_FILE_JSON := CONFIG_FILE_JSON default_config;
     CONFIG_FILE_LIST := CONFIG_FILE_LIST default_config;
     CONFIG_ANNOTATION_BUMP := CONFIG_ANNOTATION_BUMP default_config;
     VERIFY_SSL := VERIFY_SSL default_config;
     RECONCILE_INTERVAL := seconds;
     WATCH_NAMESPACES := WATCH_NAMESPACES default_config |}.

(** A cluster whose i-th listing answers [listing i], with a healthy DNS
    API and no sink document. *)
Definition listing_env (listing : nat -> Res (list V1Pod)) : Env :=
  {| http_reply := fun _ => HttpResponse 200 "";
     list_reply := listing;
     read_reply := fun _ => Raise not_found;
     write_reply := fun _ => Ok tt;
     clock := fun _ => 1700000000 |}.

(** The pods of namespace "a" at the first listing, those of "b" after. *)
Definition pods_by_listing (i : nat) : list V1Pod :=
  match i with
  | O => [pod_of "a" "p1" {["dns" := "true"]} (Some "10.0.0.1")]
  | _ => [pod_of "b" "p3" {["dns" := "true"]} (Some "10.0.0.3")]
  end.

(** The second listing is refused. *)
Definition second_listing_refused (i : nat) : Res (list V1Pod) :=
  match i with
  | 1%nat => Raise (ApiException 403 "(403) Reason: Forbidden")
  | _ => Ok (pods_by_listing i)
  end.

(** A sink whose document is there at the read and gone at the replace:
    the first write is answered with a 404, the next goes through. *)
Definition vanishing_env : Env :=
  {| http_reply := fun _ => HttpResponse 200 "";
     list_reply := fun _ => Ok sample_pods;
     read_reply := fun _ => Ok sample_sink;
     write_reply := fun i => match i with O => Raise not_found | _ => Ok tt end;
     clock := fun _ => 1700000000 |}.

(** The sample cluster with a healthy DNS API and no sink document. *)
Definition all_well : World :=
  initial (steady_env sample_pods (Raise not_found) (HttpResponse 200 "")).

(** A cluster that refuses every listing. *)
Definition listing_refused : World :=
  initial (listing_env (fun _ => Raise (ApiException 403 "(403) Reason: Forbidden"))).



(** The sample cluster in front of a DNS API that answers the probe with a
    200 and every request after it with a 503. *)
Definition upserts_refused : World :=
  initial {| http_reply := fun i => match i with
                                    | O => HttpResponse 200 ""
                                    | _ => HttpResponse 503 "Service Unavailable"
                                    end;
             list_reply := fun _ => Ok sample_pods;
             read_reply := fun _ => Raise not_found;
             write_reply := fun _ => Ok tt;
             clock := fun _ => 1700000000 |}.

(** * Facts about the string operations *)

Module PyStrFacts.
Import PyStr PyStrSpec.

Lemma app_cons c s t : String c s +:+ t = String c (s +:+ t).
Proof. reflexivity. Qed.

Lemma app_nil_l s : "" +:+ s = s.
Proof. reflexivity. Qed.

Lemma app_nil_r s : s +:+ "" = s.
Proof. induction s as [|c s IH]; [reflexivity|]. by rewrite app_cons, IH. Qed.

Lemma app_assoc s t u : (s +:+ t) +:+ u = s +:+ t +:+ u.
Proof. induction s as [|c s IH]; [reflexivity|]. by rewrite !app_cons, IH. Qed.

Lemma app_eq_nil s t : s +:+ t = "" -> s = "" /\ t = "".
Proof. destruct s; [by rewrite app_nil_l|by rewrite app_cons]. Qed.

Lemma last_is_cons p c s : s <> "" -> last_is p (String c s) = last_is p s.
Proof. by destruct s. Qed.

Lemma last_is_app p s t : t <> "" -> last_is p (s +:+ t) = last_is p t.
Proof.
  intros Ht. induction s as [|c s IH]; [reflexivity|].
  rewrite app_cons, last_is_cons, IH; [done|].
  intros [_ ?]%app_eq_nil. done.
Qed.

Lemma lstrip_by_spec drop s :
  exists lead, s = lead +:+ lstrip_by drop s /\ all_chars drop lead = true /\
               head_is drop (lstrip_by drop s) = false.
Proof.
  induction s as [|c s (lead & Hs & Hl & Hh)]; simpl.
  - by exists "".
  - destruct (drop c) eqn:Hc.
    + exists (String c lead). rewrite app_cons, <-Hs. simpl. by rewrite Hc, Hl.
    + exists "". simpl. by rewrite Hc.
Qed.

Lemma rstrip_by_nil drop s : rstrip_by drop s = "" -> all_chars drop s = true.
Proof.
  induction s as [|c s IH]; simpl; [done|].
  destruct (rstrip_by drop s); [|done]. destruct (drop c); [auto|done].
Qed.

Lemma rstrip_by_spec drop s :
  exists trail, s = rstrip_by drop s +:+ trail /\ all_chars drop trail = true /\
                last_is drop (rstrip_by drop s) = false.
Proof.
  induction s as [|c s (trail & Hs & Ht & Hl)]; simpl.
  - by exists "".
  - destruct (rstrip_by drop s) as [|d r] eqn:Hr.
    + destruct (drop c) eqn:Hc.
      * exists (String c s). simpl. rewrite Hc. split; [done|].
        split; [|done]. rewrite app_nil_l in Hs. by subst.
      * exists trail. rewrite app_cons, <-Hs. simpl. by rewrite Hc.
    + exists trail. rewrite app_cons, <-Hs. split; [done|]. split; [done|].
      by rewrite last_is_cons.
Qed.

Lemma rstrip_by_head drop s :
  head_is drop s = false -> head_is drop (rstrip_by drop s) = false.
Proof.
  destruct s as [|c s]; simpl; [done|]. intros Hc.
  destruct (rstrip_by drop s); [|done]. by rewrite Hc.
Qed.

(** [strip_by] trims. *)
Lemma strip_by_trimmed drop s : trimmed drop s (strip_by drop s).
Proof.
  unfold strip_by, trimmed.
  destruct (lstrip_by_spec drop s) as (lead & Hs & Hl & Hh).
  destruct (rstrip_by_spec drop (lstrip_by drop s)) as (trail & Hs' & Ht & Hla).
  exists lead, trail. split; [by rewrite <-Hs'|].
  split; [done|]. split; [done|]. split; [|done]. by apply rstrip_by_head.
Qed.

Lemma lstrip_by_app_all drop lead s :
  all_chars drop lead = true -> lstrip_by drop (lead +:+ s) = lstrip_by drop s.
Proof.
  induction lead as [|c lead IH]; [done|]. simpl.
  intros [Hc Hl]%andb_prop. rewrite ?app_cons. simpl. rewrite Hc. auto.
Qed.

Lemma lstrip_by_head drop s : head_is drop s = false -> lstrip_by drop s = s.
Proof. destruct s as [|c s]; simpl; [done|]. by intros ->. Qed.

Lemma rstrip_by_all drop s : all_chars drop s = true -> rstrip_by drop s = "".
Proof.
  induction s as [|c s IH]; [done|]. simpl. intros [Hc Hs]%andb_prop.
  by rewrite IH, Hc.
Qed.

Lemma rstrip_by_last drop s : last_is drop s = false -> s <> "" -> rstrip_by drop s = s.
Proof.
  induction s as [|c s IH]; [done|]. intros Hl _. simpl.
  destruct s as [|d s].
  - simpl in *. by rewrite Hl.
  - rewrite IH; [done| |done]. by rewrite last_is_cons in Hl.
Qed.

Lemma rstrip_by_app_all drop s trail :
  all_chars drop trail = true -> rstrip_by drop (s +:+ trail) = rstrip_by drop s.
Proof.
  intros Ht. induction s as [|c s IH].
  - rewrite app_nil_l. by apply rstrip_by_all.
  - rewrite app_cons. simpl. by rewrite IH.
Qed.

(** What is left after trimming is determined: it is what [strip_by] returns. *)
Lemma trimmed_unique drop s t : trimmed drop s t -> t = strip_by drop s.
Proof.
  intros (lead & trail & -> & Hl & Ht & Hh & Hla). unfold strip_by.
  rewrite lstrip_by_app_all by done.
  destruct t as [|c t].
  - rewrite app_nil_l.
    destruct (lstrip_by_spec drop trail) as (l' & Htr & _ & _).
    symmetry. apply rstrip_by_all.
    assert (Hall : forall s, all_chars drop s = true -> all_chars drop (lstrip_by drop s) = true).
    { clear. induction s as [|c s IH]; [done|]. simpl. intros [Hc Hs]%andb_prop.
      rewrite Hc. auto. }
    by apply Hall.
  - rewrite lstrip_by_head by (by rewrite app_cons).
    rewrite rstrip_by_app_all by done. symmetry. by apply rstrip_by_last.
Qed.

End PyStrFacts.

(** * The record name of a pod *)

Section Fqdn.
Import PyStr PyStrSpec PyStrFacts.

Lemma strip_by_id drop s :
  head_is drop s = false -> last_is drop s = false -> strip_by drop s = s.
Proof.
  intros Hh Hl. symmetry. apply trimmed_unique. exists "", "".
  by rewrite app_nil_l, app_nil_r.
Qed.

(** C9, as the code has it: the record name is the prefix followed by the
    pod name, without the dots at the two ends of that text, then a dot and
    the zone.  It is exactly prefix, pod name, dot, zone when the prefix
    followed by the pod name neither begins nor ends with a dot. *)
Theorem fqdn_for_pod_trims_dots (cfg : Config) (pod_name : string) :
  (exists core,
     trimmed (Ascii.eqb ".") (DNS_RECORD_PREFIX cfg +:+ pod_name) core /\
     fqdn_for_pod cfg pod_name = core +:+ "." +:+ DNS_ZONE cfg) /\
  (head_is (Ascii.eqb ".") (DNS_RECORD_PREFIX cfg +:+ pod_name) = false ->
   last_is (Ascii.eqb ".") (DNS_RECORD_PREFIX cfg +:+ pod_name) = false ->
   fqdn_for_pod cfg pod_name = fqdn_plain cfg pod_name).
Proof.
  split.
  - eexists. split; [apply strip_by_trimmed|reflexivity].
  - intros Hh Hl. unfold fqdn_for_pod, fqdn_plain, strip_dots.
    rewrite strip_by_id by done. apply app_assoc.
Qed.

(** With the default configuration the name of pod [web-0] in the default
    zone is the plain concatenation. *)
Lemma fqdn_for_pod_trims_dots_witness :
  fqdn_for_pod default_config "web-0" = "web-0.example.com.".
Proof.
  rewrite (proj2 (fqdn_for_pod_trims_dots default_config "web-0"));
    reflexivity.
Defined.

(** C9 as stated fails: a dot at the end of the pod name, or at the start
    of the configured prefix, is not part of the record name. *)
Lemma fqdn_for_pod_not_plain :
  fqdn_for_pod default_config "web." <> fqdn_plain default_config "web." /\
  fqdn_for_pod (config_with_prefix ".") "web-0"
    <> fqdn_plain (config_with_prefix ".") "web-0".
Proof. split; vm_compute; discriminate. Qed.

End Fqdn.

(** * The selector matcher *)

Section Selector.
Import PyStr PyStrSpec PyStrFacts SelectorSpec.

Lemma contains_char_has sep s : contains_char sep s = true <-> has_char sep s.
Proof.
  split.
  - induction s as [|c s IH]; simpl; [done|].
    destruct (Ascii.eqb_spec c sep) as [->|Hne]; simpl.
    + intros _. by exists "", s.
    + intros (l & r & ->)%IH. by exists (String c l), r.
  - intros (l & r & ->). induction l as [|c l IH]; simpl.
    + by rewrite Ascii.eqb_refl.
    + rewrite IH. apply orb_true_r.
Qed.

Lemma contains_char_lacks sep s : contains_char sep s = false <-> ~ has_char sep s.
Proof.
  rewrite <-contains_char_has. by destruct (contains_char sep s).
Qed.

Lemma has_char_cons sep c s : has_char sep (String c s) <-> c = sep \/ has_char sep s.
Proof.
  rewrite <-!contains_char_has. simpl.
  destruct (Ascii.eqb_spec c sep); simpl; naive_solver.
Qed.

(** [split_once] cuts at the first separator, and only there. *)
Lemma split_once_cut sep k v :
  ~ has_char sep k -> split_once sep (k +:+ String sep v) = (k, Some v).
Proof.
  induction k as [|c k IH]; intros Hk; simpl.
  - by rewrite Ascii.eqb_refl.
  - rewrite has_char_cons in Hk.
    destruct (Ascii.eqb_spec c sep) as [->|_]; [naive_solver|].
    rewrite IH; [done|naive_solver].
Qed.

Lemma split_once_none sep s :
  ~ has_char sep s -> split_once sep s = (s, None).
Proof.
  induction s as [|c s IH]; intros Hs; simpl; [done|].
  rewrite has_char_cons in Hs.
  destruct (Ascii.eqb_spec c sep) as [->|_]; [naive_solver|].
  rewrite IH; [done|naive_solver].
Qed.

Lemma has_char_first sep s :
  has_char sep s -> exists k v, s = k +:+ String sep v /\ ~ has_char sep k.
Proof.
  induction s as [|c s IH].
  - intros (l & r & H). by destruct l.
  - destruct (decide (c = sep)) as [->|Hne].
    + intros _. exists "", s. split; [done|]. intros (l & r & H). by destruct l.
    + intros [?|Hs]%has_char_cons; [done|].
      destruct (IH Hs) as (k & v & -> & Hk). exists (String c k), v.
      split; [done|]. rewrite has_char_cons. naive_solver.
Qed.

(** [split] returns the clauses, and nothing else is a list of clauses. *)
Lemma split_not_nil sep s : split sep s <> [].
Proof.
  destruct s as [|c s]; simpl; [done|].
  destruct (Ascii.eqb c sep); [done|]. by destruct (split sep s).
Qed.

Lemma split_join sep s : join (String sep "") (split sep s) = s.
Proof.
  induction s as [|c s IH]; simpl; [done|].
  destruct (Ascii.eqb_spec c sep) as [->|Hne].
  - pose proof (split_not_nil sep s).
    destruct (split sep s) eqn:E; [done|]. simpl in *. by rewrite IH.
  - pose proof (split_not_nil sep s).
    destruct (split sep s) as [|h [|h' t]] eqn:E; [done|..]; simpl in *.
    + by rewrite IH.
    + by rewrite <-IH.
Qed.

Lemma split_no_sep sep s : Forall (fun p => ~ has_char sep p) (split sep s).
Proof.
  induction s as [|c s IH]; simpl.
  - constructor; [|done]. intros (l & r & H). by destruct l.
  - destruct (Ascii.eqb_spec c sep) as [->|Hne].
    + constructor; [|done]. intros (l & r & H). by destruct l.
    + pose proof (split_not_nil sep s) as Hnil.
      destruct (split sep s) as [|h t]; [done|].
      inversion IH; subst. constructor; [|done].
      rewrite has_char_cons. naive_solver.
Qed.

Lemma split_unique sep pieces :
  pieces <> [] -> Forall (fun p => ~ has_char sep p) pieces ->
  split sep (join (String sep "") pieces) = pieces.
Proof.
  induction pieces as [|p rest IH]; [done|]. intros _ Hall.
  inversion Hall as [|? ? Hp Hrest]; subst.
  destruct rest as [|q rest].
  - simpl. clear IH Hall Hrest. induction p as [|c p IHp]; [done|].
    rewrite has_char_cons in Hp. simpl.
    destruct (Ascii.eqb_spec c sep) as [->|_]; [naive_solver|].
    rewrite IHp; [done|naive_solver].
  - assert (IH' : split sep (join (String sep "") (q :: rest)) = q :: rest)
      by (by apply IH).
    change (join (String sep "") (p :: q :: rest))
      with (p +:+ String sep "" +:+ join (String sep "") (q :: rest)).
    clear IH Hall Hrest.
    generalize dependent (join (String sep "") (q :: rest)). intros J IH'.
    induction p as [|c p IHp].
    + rewrite app_nil_l, app_cons, app_nil_l. simpl.
      by rewrite Ascii.eqb_refl, IH'.
    + rewrite has_char_cons in Hp. rewrite app_cons. simpl.
      destruct (Ascii.eqb_spec c sep) as [->|_]; [naive_solver|].
      rewrite IHp; [done|naive_solver].
Qed.

Lemma clauses_of_split selector : clauses_of selector (split "," selector).
Proof.
  split; [apply split_not_nil|]. split; [apply split_join|apply split_no_sep].
Qed.

Lemma clauses_of_unique selector pieces :
  clauses_of selector pieces -> pieces = split "," selector.
Proof. intros (Hnil & <- & Hall). symmetry. by apply split_unique. Qed.

(** The loop body against the meaning of a clause. *)
Lemma clause_passes_holds labels t :
  clause_passes labels t = true <-> clause_holds labels t.
Proof.
  unfold clause_passes, clause_holds.
  destruct (decide (t = "")) as [->|Ht]; [naive_solver|].
  destruct (contains_char "=" t) eqn:Hc.
  - apply contains_char_has in Hc as Hhas.
    destruct (has_char_first _ _ Hhas) as (k & v & -> & Hk).
    rewrite split_once_cut by done. rewrite bool_decide_eq_true. split.
    + intros Hl. right; left. exists k, v, (strip k), (strip v).
      split; [done|]. split; [done|].
      split; [apply strip_by_trimmed|]. split; [apply strip_by_trimmed|done].
    + intros [?|[(k0 & v0 & k' & v' & Heq & Hk0 & Hk' & Hv' & Hl)|(_ & Hno & _)]];
        [done| |done].
      assert (Hcut : split_once "=" (k0 +:+ "=" +:+ v0) = (k0, Some v0))
        by (by apply split_once_cut).
      rewrite <-Heq, split_once_cut in Hcut by done.
      injection Hcut as -> ->.
      apply trimmed_unique in Hk', Hv'. unfold strip. by rewrite <-Hk', <-Hv'.
  - apply contains_char_lacks in Hc. rewrite bool_decide_eq_true. split.
    + intros Hl. right; right. done.
    + intros [?|[(k0 & v0 & k' & v' & -> & _)|(_ & _ & Hl)]]; [done| |done].
      destruct Hc. by exists k0, v0.
Qed.

Lemma match_clauses_Forall labels clauses :
  match_clauses labels clauses = true <->
  Forall (fun c => clause_passes labels (strip c) = true) clauses.
Proof.
  induction clauses as [|c rest IH]; simpl.
  - split; [by constructor|done].
  - rewrite Forall_cons, <-IH.
    destruct (clause_passes labels (strip c)); naive_solver.
Qed.

(** C3, as the code has it: the matcher returns [True] exactly when every
    clause of the selector, trimmed, is satisfied by the labels, key and
    value of an equality clause being trimmed as well. *)
Theorem match_selector_iff_clauses (labels : gmap string string) (selector : string) :
  _match_selector labels selector = true <->
  selector_holds clause_holds labels selector.
Proof.
  unfold _match_selector, selector_holds.
  destruct (decide (selector = "")) as [->|Hne].
  - split; [|done]. intros _ pieces ->%clauses_of_unique c t Hc Ht.
    simpl in Hc. apply list_elem_of_singleton in Hc as ->.
    apply trimmed_unique in Ht as ->. by left.
  - rewrite match_clauses_Forall, Forall_forall. split.
    + intros Hall pieces ->%clauses_of_unique c t Hc ->%trimmed_unique.
      by apply clause_passes_holds, Hall.
    + intros Hall c Hc. apply clause_passes_holds.
      apply (Hall _ (clauses_of_split selector) c); [done|].
      apply strip_by_trimmed.
Qed.

(** C3 as stated fails: the selector "a = b" matches the label a=b, the
    key "a " and the value " b" being trimmed before the lookup. *)
Lemma match_selector_trims_key_and_value :
  _match_selector {["a" := "b"]} "a = b" = true /\
  ~ selector_holds clause_holds_untrimmed {["a" := "b"]} "a = b".
Proof.
  split; [by vm_compute|]. intros H.
  specialize (H ["a = b"]). 
  destruct (H (clauses_of_split "a = b") "a = b" "a = b") as
    [?|[(k & v & Heq & Hk & Hl)|(_ & Hno & _)]]; [by left| |done| |].
  - exists "", "". done.
  - assert (Hcut : split_once "=" (k +:+ "=" +:+ v) = (k, Some v))
      by (by apply split_once_cut).
    rewrite <-Heq in Hcut. vm_compute in Hcut. injection Hcut as <- <-.
    by vm_compute in Hl.
  - apply Hno. by exists "a ", " b".
Qed.

End Selector.

(** * The DNS client: delete *)

Section Delete.
Import PyStr PyStrSpec PyStrFacts.

Lemma prefix_app a s : String.prefix a s = true <-> exists r, s = a +:+ r.
Proof.
  revert s. induction a as [|c a IH]; intros s.
  - split; [intros _; by exists s|]. by destruct s.
  - destruct s as [|d s]; simpl.
    + split; [done|]. by intros (r & ?).
    + destruct (ascii_dec c d) as [->|Hne].
      * rewrite IH. split; intros (r & Hr); exists r.
        -- by rewrite Hr.
        -- rewrite app_cons in Hr. by injection Hr.
      * split; [done|]. intros (r & Hr). rewrite app_cons in Hr.
        injection Hr as ??. by subst.
Qed.

Lemma is_substring_parts needle hay :
  is_substring needle hay = true <-> exists l r, hay = l +:+ needle +:+ r.
Proof.
  induction hay as [|c hay IH].
  - cbn [is_substring]. rewrite orb_false_r, prefix_app. split.
    + intros (r & Hr). by exists "", r.
    + intros (l & r & H). symmetry in H.
      apply app_eq_nil in H as [-> H]. by exists r.
  - cbn [is_substring]. rewrite orb_true_iff, prefix_app, IH. split.
    + intros [(r & Hr)|(l & r & Hr)].
      * by exists "", r.
      * exists (String c l), r. by rewrite Hr.
    + intros (l & r & Hr). destruct l as [|d l].
      * left. by exists r.
      * right. rewrite app_cons in Hr. injection Hr as -> ->. by exists l, r.
Qed.

Lemma lower_app a b : lower (a +:+ b) = lower a +:+ lower b.
Proof. induction a as [|c a IH]; [done|]. rewrite !app_cons. simpl. by rewrite IH. Qed.

Lemma lower_app_inv s a b :
  lower s = a +:+ b -> exists s1 s2, s = s1 +:+ s2 /\ lower s1 = a /\ lower s2 = b.
Proof.
  revert s. induction a as [|c a IH]; intros s.
  - intros H. by exists "", s.
  - destruct s as [|d s]; [done|]. simpl. rewrite app_cons.
    intros H. injection H as Hc (s1 & s2 & -> & <- & <-)%IH.
    exists (String d s1), s2. simpl. by rewrite Hc.
Qed.

(** The test of the source, [needle in text.lower()] for a needle without
    capitals, finds the needle up to case. *)
Lemma is_substring_lower_mentions needle text :
  lower needle = needle ->
  is_substring needle (lower text) = true <-> mentions needle text.
Proof.
  intros Hn. rewrite is_substring_parts. unfold mentions. rewrite Hn. split.
  - intros (l & r & (s1 & s2 & -> & <- & (m & s3 & -> & Hm & <-)%lower_app_inv)%lower_app_inv).
    by exists s1, m, s3.
  - intros (l & m & r & -> & Hm). exists (lower l), (lower r).
    by rewrite !lower_app, Hm.
Qed.

(** C8: against a response of status 400 or more, [delete] returns when
    the body reads "not found" in any case, and raises its error for every
    other body. *)
Theorem pdns_delete_not_found_is_success
    (cfg : Config) (name_fqdn : string) (w : World) (status : Z) (text : string) :
  http_reply (env w) (http_n w) = HttpResponse status text ->
  400 <= status ->
  (mentions "not found" text ->
   (pdns_delete_a_record cfg name_fqdn w).1 = Ok tt) /\
  (~ mentions "not found" text ->
   (pdns_delete_a_record cfg name_fqdn w).1 =
     Raise (RuntimeError ("PDNS delete failed " +:+ pretty status +:+ ": " +:+ text))).
Proof.
  intros Hreply Hstatus.
  unfold pdns_delete_a_record, mbind, M_bind, bind, requests_patch.
  rewrite Hreply. cbn [http_result fst snd].
  apply Z.leb_le in Hstatus. rewrite Hstatus. cbn [andb].
  pose proof (is_substring_lower_mentions "not found" text eq_refl) as Hm.
  destruct (is_substring "not found" (lower text)); cbn [negb].
  - split; [done|]. intros Hno. destruct Hno. by apply Hm.
  - split; [|done]. intros Hyes%Hm. done.
Qed.

(** A 422 whose body says "Not Found" is a success; a 500 that does not
    say so is the error. *)
Lemma pdns_delete_not_found_is_success_witness :
  (pdns_delete_a_record default_config "web-0.example.com."
     (initial (steady_env [] (Raise not_found)
                 (HttpResponse 422 "RRset web-0.example.com. IN A: Not Found")))).1
  = Ok tt /\
  (pdns_delete_a_record default_config "web-0.example.com."
     (initial (steady_env [] (Raise not_found)
                 (HttpResponse 500 "Internal Server Error")))).1
  = Raise (RuntimeError "PDNS delete failed 500: Internal Server Error").
Proof.
  split.
  - apply (pdns_delete_not_found_is_success default_config "web-0.example.com."
             (initial (steady_env [] (Raise not_found) (HttpResponse 422 _)))
             422 "RRset web-0.example.com. IN A: Not Found" eq_refl);
      [lia|].
    exists "RRset web-0.example.com. IN A: ", "Not Found", "". by split.
  - apply (pdns_delete_not_found_is_success default_config "web-0.example.com."
             (initial (steady_env [] (Raise not_found) (HttpResponse 500 _)))
             500 "Internal Server Error" eq_refl); [lia|].
    intros H%is_substring_lower_mentions; [|reflexivity]. by vm_compute in H.
Defined.

End Delete.

(** * Running the controller: general facts *)

Section Running.

Lemma bind_run {A B} (m : M A) (k : A -> M B) w :
  (m ≫= k) w = match m w with
               | (Ok a, w') => k a w'
               | (Raise e, w') => (Raise e, w')
               end.
Proof. reflexivity. Qed.

Lemma try_except_run {A} (m : M A) (h : Exn -> M A) w :
  try_except m h w = match m w with
                     | (Ok a, w') => (Ok a, w')
                     | (Raise e, w') => h e w'
                     end.
Proof. reflexivity. Qed.

Lemma grows_ret {A} P (a : A) : grows P (ret a).
Proof. intros w r w' [= <- <-]. exists []. by rewrite app_nil_r. Qed.

Lemma grows_raise {A} P e : grows P (@raise A e).
Proof. intros w r w' [= <- <-]. exists []. by rewrite app_nil_r. Qed.

Lemma grows_lift {A} P (r : Res A) : grows P (lift r).
Proof. intros w r' w' [= <- <-]. exists []. by rewrite app_nil_r. Qed.

Lemma grows_bind {A B} P (m : M A) (k : A -> M B) :
  grows P m -> (forall a, grows P (k a)) -> grows P (m ≫= k).
Proof.
  intros Hm Hk w r w'. rewrite bind_run.
  destruct (m w) as [[a|e] w1] eqn:E; destruct (Hm _ _ _ E) as (tr1 & Ht1 & HP1).
  - intros (tr2 & Ht2 & HP2)%Hk. exists (tr1 ++ tr2).
    rewrite Ht2, Ht1, app_assoc. split; [done|]. by apply Forall_app.
  - intros [= <- <-]. by exists tr1.
Qed.

Lemma grows_try_except {A} P (m : M A) (h : Exn -> M A) :
  grows P m -> (forall e, grows P (h e)) -> grows P (try_except m h).
Proof.
  intros Hm Hh w r w'. rewrite try_except_run.
  destruct (m w) as [[a|e] w1] eqn:E; destruct (Hm _ _ _ E) as (tr1 & Ht1 & HP1).
  - intros [= <- <-]. by exists tr1.
  - intros (tr2 & Ht2 & HP2)%Hh. exists (tr1 ++ tr2).
    rewrite Ht2, Ht1, app_assoc. split; [done|]. by apply Forall_app.
Qed.


(** A primitive adds its one effect. *)
Lemma grows_one {A} P (e : Effect) (m : M A) :
  (forall w, trace (m w).2 = trace w ++ [e]) -> P e -> grows P m.
Proof.
  intros Hm HP w r w' E. exists [e]. specialize (Hm w). rewrite E in Hm.
  split; [done|]. by constructor.
Qed.

Lemma grows_print P line : P (EPrint line) -> grows P (print line).
Proof. by apply grows_one. Qed.

Lemma grows_print_exc P e : P (ETraceback e) -> grows P (print_exc e).
Proof. by apply grows_one. Qed.

Lemma grows_time_sleep P seconds : P (ESleep seconds) -> grows P (time_sleep seconds).
Proof.
  intros HP w r w'. unfold time_sleep. destruct (Qle_bool 0 seconds).
  - intros [= <- <-]. exists [ESleep seconds]. split; [done|]. by constructor.
  - intros [= <- <-]. exists []. by rewrite app_nil_r.
Qed.

Lemma grows_time_time P : grows P time_time.
Proof. intros w r w' [= <- <-]. exists []. by rewrite app_nil_r. Qed.

Lemma grows_requests_get P url headers verify timeout :
  P (EHttpGet url headers verify timeout) ->
  grows P (requests_get url headers verify timeout).
Proof. by apply grows_one. Qed.

Lemma grows_requests_patch P url headers data verify timeout :
  P (EHttpPatch url headers data verify timeout) ->
  grows P (requests_patch url headers data verify timeout).
Proof. by apply grows_one. Qed.

Lemma grows_list_namespaced_pod P ns sel :
  P (EListNamespacedPod ns sel) -> grows P (list_namespaced_pod ns sel).
Proof. by apply grows_one. Qed.

Lemma grows_list_pod_for_all_namespaces P sel :
  P (EListPodForAllNamespaces sel) -> grows P (list_pod_for_all_namespaces sel).
Proof. by apply grows_one. Qed.

Lemma grows_read_namespaced_config_map P nm ns :
  P (EReadConfigMap nm ns) -> grows P (read_namespaced_config_map nm ns).
Proof. by apply grows_one. Qed.

Lemma grows_replace_namespaced_config_map P nm ns body :
  P (EReplaceConfigMap nm ns body) ->
  grows P (replace_namespaced_config_map nm ns body).
Proof. by apply grows_one. Qed.

Lemma grows_create_namespaced_config_map P ns body :
  P (ECreateConfigMap ns body) -> grows P (create_namespaced_config_map ns body).
Proof. by apply grows_one. Qed.

Lemma safe_ret {A} (a : A) : safe (ret a).
Proof. intros w. by exists a, w. Qed.

Lemma safe_bind {A B} (m : M A) (k : A -> M B) :
  safe m -> (forall a, safe (k a)) -> safe (m ≫= k).
Proof.
  intros Hm Hk w. rewrite bind_run. destruct (Hm w) as (a & w1 & ->). apply Hk.
Qed.

Lemma safe_try_except {A} (m : M A) (h : Exn -> M A) :
  (forall e, safe (h e)) -> safe (try_except m h).
Proof.
  intros Hh w. rewrite try_except_run. destruct (m w) as [[a|e] w1].
  - by exists a, w1.
  - apply Hh.
Qed.

Lemma safe_print line : safe (print line).
Proof. intros w. by eexists _, _. Qed.

Lemma safe_print_exc e : safe (print_exc e).
Proof. intros w. by eexists _, _. Qed.

End Running.


(** * The DNS client: upsert with retry *)

Section Retry.

Lemma pdns_upsert_a_record_run cfg name_fqdn ip ttl w :
  pdns_upsert_a_record cfg name_fqdn ip ttl w =
  (match http_reply (env w) (http_n w) with
   | HttpResponse status text =>
       if 400 <=? status
       then Raise (RuntimeError ("PDNS upsert failed " +:+ pretty status +:+ ": " +:+ text))
       else Ok tt
   | HttpFailure e => Raise e
   end,
   next_http (emit (EHttpPatch (_zone_url cfg) (_pdns_headers cfg)
                      (PyJson.dumps None (upsert_payload name_fqdn ip ttl))
                      (VERIFY_SSL cfg) 10) w)).
Proof.
  unfold pdns_upsert_a_record. rewrite bind_run. unfold requests_patch.
  destruct (http_reply (env w) (http_n w)) as [status text|e]; [|done].
  cbn [http_result fst snd]. by destruct (400 <=? status).
Qed.

Lemma upsert_failing_raises cfg name_fqdn ip ttl w :
  upsert_failing (http_reply (env w) (http_n w)) ->
  exists e, (pdns_upsert_a_record cfg name_fqdn ip ttl w).1 = Raise e.
Proof.
  rewrite pdns_upsert_a_record_run.
  destruct (http_reply (env w) (http_n w)) as [status text|e]; simpl.
  - intros ->%Z.leb_le. by eexists.
  - by eexists.
Qed.

Lemma upsert_succeeding_returns cfg name_fqdn ip ttl w :
  upsert_succeeding (http_reply (env w) (http_n w)) ->
  (pdns_upsert_a_record cfg name_fqdn ip ttl w).1 = Ok tt.
Proof.
  rewrite pdns_upsert_a_record_run.
  destruct (http_reply (env w) (http_n w)) as [status text|e]; simpl; [|done].
  intros H. by destruct (Z.leb_spec 400 status); [lia|].
Qed.

Lemma patch_count_snoc tr e :
  patch_count (tr ++ [e]) = (patch_count tr + if is_patch e then 1 else 0)%nat.
Proof.
  unfold patch_count. rewrite filter_app, length_app. f_equal.
  rewrite filter_cons, filter_nil. by destruct (is_patch e).
Qed.

Lemma sleep_length_ok (backoff : Q) (i : Z) :
  (0 <= backoff)%Q -> 0 <= i -> Qle_bool 0 (backoff * inject_Z (i + 1)) = true.
Proof.
  intros Hb Hi. apply Qle_bool_iff, Qmult_le_0_compat; [done|].
  change 0%Q with (inject_Z 0). rewrite <-Zle_Qle. lia.
Qed.

(** The loop over the indices still to run, against a DNS API that fails
    [n] more times. *)
Lemma upsert_attempts_run cfg name_fqdn ip ttl backoff indices :
  (0 <= backoff)%Q -> Forall (fun i => 0 <= i) indices ->
  forall last n w, fails_then_succeeds n w ->
  exists w',
    upsert_attempts cfg name_fqdn ip ttl backoff indices last w
      = (Ok (bool_decide (n < length indices)%nat), w') /\
    env w' = env w /\
    patch_count (trace w')
      = (patch_count (trace w) + Nat.min (S n) (length indices))%nat.
Proof.
  intros Hb. induction 1 as [|i rest Hi Hrest IH]; intros last n w [Hfail Hok].
  - eexists. split; [reflexivity|]. split; [done|].
    cbn [trace emit length]. rewrite patch_count_snoc. cbn. lia.
  - cbn [upsert_attempts]. rewrite try_except_run, bind_run.
    destruct n as [|n].
    + rewrite Nat.add_0_r in Hok.
      pose proof (upsert_succeeding_returns cfg name_fqdn ip ttl w Hok) as Hr.
      rewrite pdns_upsert_a_record_run in *. cbn [fst] in Hr. rewrite Hr.
      eexists. split; [reflexivity|]. split; [done|].
      cbn [trace emit next_http length]. rewrite patch_count_snoc. cbn. lia.
    + destruct (upsert_failing_raises cfg name_fqdn ip ttl w) as [e Hr].
      { specialize (Hfail 0%nat). rewrite Nat.add_0_r in Hfail. apply Hfail. lia. }
      rewrite pdns_upsert_a_record_run in *. cbn [fst] in Hr. rewrite Hr.
      rewrite bind_run. unfold time_sleep at 1. rewrite sleep_length_ok by done.
      match goal with |- context [upsert_attempts _ _ _ _ _ _ _ ?w1] =>
        destruct (IH (Some e) n w1) as (w' & Hrun & Henv & Hcount) end.
      { split; cbn [env http_n emit next_http].
        - intros j Hj. replace (S (http_n w) + j)%nat with (http_n w + S j)%nat by lia.
          apply Hfail. lia.
        - by replace (S (http_n w) + n)%nat with (http_n w + S n)%nat by lia. }
      exists w'. rewrite Hrun. split.
      { f_equal. f_equal. apply bool_decide_ext. cbn [length]. lia. }
      split; [by rewrite Henv|].
      rewrite Hcount. cbn [trace emit next_http length].
      rewrite !patch_count_snoc. cbn. lia.
Qed.

Lemma length_range n : length (range n) = Z.to_nat n.
Proof. unfold range. by rewrite length_map, length_seq. Qed.

Lemma range_nonneg n : Forall (fun i => 0 <= i) (range n).
Proof. unfold range. apply Forall_forall. intros i (k & -> & _)%list_elem_of_fmap. lia. Qed.

(** C4: against a DNS API whose upsert fails [n] times and then succeeds,
    the retry returns [True] when [n < attempts] and [False] otherwise,
    calls the upsert [min (n + 1) attempts] times, and raises nothing. *)
Theorem pdns_upsert_with_retry_counts
    (cfg : Config) (name_fqdn ip : string) (ttl attempts : Z) (backoff : Q)
    (n : nat) (w : World) :
  0 <= attempts -> (0 <= backoff)%Q -> fails_then_succeeds n w ->
  exists w',
    pdns_upsert_with_retry cfg name_fqdn ip ttl attempts backoff w
      = (Ok (bool_decide (Z.of_nat n < attempts)), w') /\
    Z.of_nat (patch_count (trace w'))
      = Z.of_nat (patch_count (trace w)) + Z.min (Z.of_nat n + 1) attempts.
Proof.
  intros Ha Hb Hn. unfold pdns_upsert_with_retry.
  destruct (upsert_attempts_run cfg name_fqdn ip ttl backoff (range attempts)
              Hb (range_nonneg attempts) None n w Hn) as (w' & Hrun & _ & Hcount).
  exists w'. rewrite Hrun, Hcount, length_range. split; [|lia].
  f_equal. f_equal. apply bool_decide_ext. lia.
Qed.

(** Two failures within the default six attempts: [True] after three calls;
    seven failures: [False] after six calls. *)
Lemma pdns_upsert_with_retry_counts_witness :
  (exists w',
     pdns_upsert_with_retry default_config "web-0.example.com." "10.0.0.1" 30
       default_attempts default_backoff (initial (flaky_env 2)) = (Ok true, w') /\
     Z.of_nat (patch_count (trace w')) = 3) /\
  (exists w',
     pdns_upsert_with_retry default_config "web-0.example.com." "10.0.0.1" 30
       default_attempts default_backoff (initial (flaky_env 7)) = (Ok false, w') /\
     Z.of_nat (patch_count (trace w')) = 6).
Proof.
  split.
  - apply (pdns_upsert_with_retry_counts default_config "web-0.example.com."
             "10.0.0.1" 30 default_attempts default_backoff 2
             (initial (flaky_env 2))).
    + unfold default_attempts. lia.
    + discriminate.
    + split.
      * intros i Hi. destruct i as [|[|i]]; simpl; lia.
      * simpl. lia.
  - apply (pdns_upsert_with_retry_counts default_config "web-0.example.com."
             "10.0.0.1" 30 default_attempts default_backoff 7
             (initial (flaky_env 7))).
    + unfold default_attempts. lia.
    + discriminate.
    + split.
      * intros i Hi. do 7 (destruct i as [|i]; [simpl; lia|]). lia.
      * simpl. lia.
Defined.

End Retry.

(** * The peer projection *)

Section Projection.

Lemma lt_strict a b : PyStr.lt a b = true <-> String.le a b /\ a <> b.
Proof.
  unfold PyStr.lt, String.le, String.ltb, String.leb.
  destruct (String.compare a b) eqn:E.
  - apply String.compare_eq_iff in E as ->. naive_solver.
  - split; [|done]. intros _. split; [done|]. intros ->.
    pose proof (String.compare_antisym b b) as Hb. rewrite E in Hb. done.
  - naive_solver.
Qed.

Lemma key_lt_strict a b :
  key_lt a b = true <->
  (String.le a.1 b.1 /\ a.1 <> b.1) \/ (a.1 = b.1 /\ String.le a.2 b.2 /\ a.2 <> b.2).
Proof.
  unfold key_lt. rewrite orb_true_iff, andb_true_iff, bool_decide_eq_true, !lt_strict.
  done.
Qed.

Lemma key_lt_irrefl a : key_lt a a = false.
Proof.
  destruct (key_lt a a) eqn:E; [|done]. apply key_lt_strict in E. naive_solver.
Qed.

Lemma key_lt_trans a b c : key_lt a b = true -> key_lt b c = true -> key_lt a c = true.
Proof.
  rewrite !key_lt_strict.
  intros [[H1 N1]|(E1 & H1 & N1)] [[H2 N2]|(E2 & H2 & N2)].
  - left. split; [by etrans|]. intros E. rewrite E in H1.
    by apply N2, (anti_symm String.le).
  - left. rewrite <-E2. done.
  - left. rewrite E1. done.
  - right. split; [congruence|]. split; [by etrans|]. intros E. rewrite E in H1.
    by apply N2, (anti_symm String.le).
Qed.


Lemma key_lt_total a b : a <> b -> key_lt a b = true \/ key_lt b a = true.
Proof.
  destruct a as [a1 a2], b as [b1 b2]. rewrite !key_lt_strict. cbn [fst snd].
  intros Hne. destruct (decide (a1 = b1)) as [->|H1].
  - assert (a2 <> b2) by congruence.
    destruct (total String.le a2 b2); [left|right]; right; done.
  - destruct (total String.le a1 b1); [left|right]; left; done.
Qed.

#[local] Instance key_le_trans : Transitive key_le.
Proof.
  unfold key_le. intros x y z Hxy Hyz.
  destruct (key_lt (peer_key z) (peer_key x)) eqn:E; [|done].
  destruct (decide (peer_key x = peer_key y)) as [Exy|Nxy]; [congruence|].
  destruct (key_lt_total _ _ Nxy) as [H|H]; [|congruence].
  pose proof (key_lt_trans _ _ _ E H). congruence.
Qed.





(** The loop of [build_peers]: it raises when some pod with an address has
    no metadata, and otherwise appends the peers of the pods in their order. *)
Lemma collect_peers_step p pods peers :
  collect_peers (p :: pods) peers =
  match reported_ip p with
  | None => collect_peers pods peers
  | Some ip =>
      match pod_metadata p with
      | None => Raise (AttributeError "'NoneType' object has no attribute 'name'")
      | Some md =>
          collect_peers pods
            (peers ++ [{| peer_name := name md; peer_namespace := namespace md;
                          peer_ip := ip |}])
      end
  end.
Proof.
  unfold reported_ip. cbn [collect_peers].
  destruct (pod_status p) as [[[ip|]]|]; [|done..].
  cbn [pod_ip]. by destruct (decide (ip = "")).
Qed.

Lemma collect_peers_projects pods peers :
  collect_peers pods peers =
  if existsb nameless pods
  then Raise (AttributeError "'NoneType' object has no attribute 'name'")
  else Ok (peers ++ omap projected pods).
Proof.
  revert peers. induction pods as [|p pods IH]; intros peers.
  - simpl. by rewrite app_nil_r.
  - rewrite collect_peers_step. cbn [existsb omap list_omap].
    unfold nameless at 1, projected at 1.
    destruct (reported_ip p) as [ip|]; [|by rewrite IH].
    destruct (pod_metadata p) as [md|]; [|done].
    rewrite IH. cbn [orb]. destruct (existsb nameless pods); [done|].
    by rewrite <-app_assoc.
Qed.

Lemma build_peers_sorted_projection pods :
  build_peers pods =
  if existsb nameless pods
  then Raise (AttributeError "'NoneType' object has no attribute 'name'")
  else Ok (sort_by_key (omap projected pods)).
Proof.
  unfold build_peers. rewrite collect_peers_projects.
  by destruct (existsb nameless pods).
Qed.







Lemma omap_perm {A B} (f : A -> option B) l1 l2 :
  l1 ≡ₚ l2 -> omap f l1 ≡ₚ omap f l2.
Proof. intros H. by rewrite H. Qed.




End Projection.

(** * What the operations add to the trace *)

Ltac grows_step :=
  first
    [ apply grows_bind; [|intros ?]
    | apply grows_try_except; [|intros ?]
    | apply grows_ret | apply grows_raise | apply grows_lift | apply grows_time_time
    | apply grows_print | apply grows_print_exc | apply grows_time_sleep
    | apply grows_requests_get | apply grows_requests_patch
    | apply grows_list_namespaced_pod | apply grows_list_pod_for_all_namespaces
    | apply grows_read_namespaced_config_map
    | apply grows_replace_namespaced_config_map
    | apply grows_create_namespaced_config_map ].

Ltac grows_all := repeat grows_step; try (split; reflexivity); try reflexivity.

Section Traces.



Lemma grows_list_each_namespace cfg nss pods :
  grows calm (list_each_namespace cfg nss pods).
Proof.
  revert pods. induction nss as [|ns nss IH]; intros pods; simpl; grows_all.
  apply IH.
Qed.

Lemma grows_list_source_pods cfg : grows calm (list_source_pods cfg).
Proof.
  unfold list_source_pods, ensure_clients. grows_step; [grows_all|].
  destruct (WATCH_NAMESPACES cfg); [grows_all|apply grows_list_each_namespace].
Qed.

Lemma grows_upsert_configmap cfg peers : grows calm (upsert_configmap cfg peers).
Proof.
  unfold upsert_configmap, ensure_clients. grows_all.
  match goal with e : Exn |- _ => destruct e end; grows_all.
  case_decide; grows_all.
Qed.

Lemma grows_pdns_upsert_a_record cfg name_fqdn ip ttl :
  grows quiet (pdns_upsert_a_record cfg name_fqdn ip ttl).
Proof. unfold pdns_upsert_a_record. grows_all. case_match; grows_all. Qed.


Lemma grows_upsert_attempts cfg name_fqdn ip ttl backoff indices last :
  grows quiet (upsert_attempts cfg name_fqdn ip ttl backoff indices last).
Proof.
  revert last. induction indices as [|i rest IH]; intros last; simpl.
  - grows_all.
  - grows_step; [|grows_all; apply IH].
    grows_step; [apply grows_pdns_upsert_a_record|grows_all].
Qed.

Lemma grows_pdns_upsert_with_retry cfg name_fqdn ip ttl attempts backoff :
  grows quiet (pdns_upsert_with_retry cfg name_fqdn ip ttl attempts backoff).
Proof. apply grows_upsert_attempts. Qed.

Lemma grows_upsert_each_peer cfg peers : grows quiet (upsert_each_peer cfg peers).
Proof.
  induction peers as [|peer rest IH]; simpl; [grows_all|].
  grows_step; [apply grows_pdns_upsert_with_retry|apply IH].
Qed.


Lemma pdns_ready_run cfg w :
  pdns_ready cfg w =
  (Ok (match http_reply (env w) (http_n w) with
       | HttpResponse status _ => bool_decide (status = 200)
       | HttpFailure _ => false
       end),
   next_http (emit (EHttpGet (PDNS_API_URL cfg +:+ "/api/v1/servers/"
                              +:+ PDNS_SERVER_ID cfg)
                      (_pdns_headers cfg) (VERIFY_SSL cfg) 5) w)).
Proof.
  unfold pdns_ready. rewrite try_except_run, bind_run. unfold requests_get.
  by destruct (http_reply (env w) (http_n w)).
Qed.

Lemma safe_pdns_ready cfg : safe (pdns_ready cfg).
Proof. intros w. rewrite pdns_ready_run. by eexists _, _. Qed.

Lemma safe_upsert_attempts cfg name_fqdn ip ttl backoff indices last :
  (0 <= backoff)%Q -> Forall (fun i => 0 <= i) indices ->
  safe (upsert_attempts cfg name_fqdn ip ttl backoff indices last).
Proof.
  intros Hb Hi. revert last.
  induction Hi as [|i rest Hi Hrest IH]; intros last; simpl.
  - apply safe_bind; [apply safe_print|intros; apply safe_ret].
  - apply safe_try_except. intros e. apply safe_bind; [|intros; apply IH].
    intros w. unfold time_sleep. rewrite sleep_length_ok by done. by eexists _, _.
Qed.

Lemma safe_pdns_upsert_with_retry cfg name_fqdn ip ttl :
  safe (pdns_upsert_with_retry cfg name_fqdn ip ttl default_attempts default_backoff).
Proof. apply safe_upsert_attempts; [done|apply range_nonneg]. Qed.

Lemma safe_upsert_each_peer cfg peers : safe (upsert_each_peer cfg peers).
Proof.
  induction peers as [|peer rest IH]; simpl; [apply safe_ret|].
  apply safe_bind; [apply safe_pdns_upsert_with_retry|done].
Qed.

End Traces.

(** * The peer sink *)

Section Sink.

(** The joined addresses with the closing line break, line by line. *)
Lemma join_lines ips :
  PyStr.join PyJson.newline ips
  +:+ (match ips with [] => "" | _ => PyJson.newline end)
  = ip_lines ips.
Proof.
  induction ips as [|a [|b rest] IH]; [done| |].
  - cbn. by rewrite PyStrFacts.app_nil_r.
  - change (PyStr.join PyJson.newline (a :: b :: rest))
      with (a +:+ PyJson.newline +:+ PyStr.join PyJson.newline (b :: rest)).
    rewrite !PyStrFacts.app_assoc. cbn [ip_lines foldr] in *. by rewrite IH.
Qed.

(** The [data] dict is the two fields of the peer list and nothing else. *)
Lemma sink_data_holds cfg peers : holds_peer_fields cfg peers (sink_data cfg peers).
Proof.
  unfold holds_peer_fields, sink_data. split; [|split].
  - rewrite lookup_insert_eq. f_equal. rewrite <-join_lines.
    by destruct peers.
  - intros Hne. by rewrite lookup_insert_ne, lookup_insert_eq.
  - intros k Hj Hl. by rewrite !lookup_insert_ne.
Qed.

(** C10: over an existing sink document the publish sends a replacement
    that is the document read, with its data replaced as a whole by the two
    fields of the peer list (no other data field stays) and the last-update
    annotation set to the time; its other annotations, its labels, name,
    namespace, version and the rest are the ones read. *)
Theorem upsert_configmap_carries_over
    (cfg : Config) (peers : list Peer) (w : World) (existing : V1ConfigMap) :
  read_reply (env w) (read_n w) = Ok existing ->
  exists body rest,
    trace (upsert_configmap cfg peers w).2
      = trace w ++ EReadConfigMap (CONFIGMAP_NAME cfg) (CONFIGMAP_NAMESPACE cfg)
                :: EReplaceConfigMap (CONFIGMAP_NAME cfg) (CONFIGMAP_NAMESPACE cfg) body
                :: rest /\
    carried_over (CONFIG_ANNOTATION_BUMP cfg) existing body /\
    cm_data body = Some (sink_data cfg peers) /\
    holds_peer_fields cfg peers (sink_data cfg peers) /\
    annotations_of body !! CONFIG_ANNOTATION_BUMP cfg
      = Some (pretty (clock (env w) (clock_n w))) /\
    (write_reply (env w) (write_n w) = Ok tt ->
     (upsert_configmap cfg peers w).1 = Ok tt /\ rest = []).
Proof.
  intros Hread. pose proof (sink_data_holds cfg peers) as Hfields.
  set (body :=
    set_cm_metadata
      (set_annotations
         (Some (<[CONFIG_ANNOTATION_BUMP cfg := pretty (clock (env w) (clock_n w))]>
                  (default ∅ (annotations (cm_metadata existing)))))
         (cm_metadata existing))
      (set_cm_data (Some (sink_data cfg peers)) existing)).
  assert (Hframe : carried_over (CONFIG_ANNOTATION_BUMP cfg) existing body).
  { repeat split. intros k Hk. unfold annotations_of, body. cbn.
    by rewrite lookup_insert_ne. }
  assert (Hbump : annotations_of body !! CONFIG_ANNOTATION_BUMP cfg
                  = Some (pretty (clock (env w) (clock_n w)))).
  { unfold annotations_of, body. cbn. by rewrite lookup_insert_eq. }
  exists body.
  remember (upsert_configmap cfg peers w) as out eqn:E. revert E.
  unfold upsert_configmap, ensure_clients.
  rewrite bind_run. cbn [ret]. rewrite try_except_run, bind_run.
  unfold read_namespaced_config_map. rewrite Hread.
  rewrite bind_run. unfold time_time at 1.
  unfold replace_namespaced_config_map.
  cbn [env trace read_n write_n clock_n emit next_read next_clock].
  fold body.
  destruct (write_reply (env w) (write_n w)) as [[]|e] eqn:Hwrite.
  - intros ->. exists []. cbn [fst snd trace emit next_write next_read next_clock].
    by rewrite <-!app_assoc.
  - destruct e as [m|m|m|status m|m];
      try (intros ->; exists [];
           cbn [fst snd trace emit next_write next_read next_clock raise];
           by rewrite <-!app_assoc).
    destruct (decide (status = 404)) as [->|Hne].
    + rewrite bind_run. unfold time_time, create_namespaced_config_map.
      intros ->. eexists [_].
      cbn [fst snd trace emit next_write next_read next_clock].
      by rewrite <-!app_assoc.
    + intros ->. exists [].
      cbn [fst snd trace emit next_write next_read next_clock raise].
      by rewrite <-!app_assoc.
Qed.

(** The owner's annotation and label of the sample document go back with
    the replacement. *)
Lemma upsert_configmap_carries_over_witness :
  exists body rest,
    trace (upsert_configmap default_config []
             (initial (steady_env [] (Ok sample_sink) (HttpResponse 200 "")))).2
      = [] ++ EReadConfigMap "pod-peers" "default"
              :: EReplaceConfigMap "pod-peers" "default" body :: rest /\
    carried_over "peers.lastUpdate" sample_sink body /\
    cm_data body = Some (sink_data default_config []) /\
    holds_peer_fields default_config [] (sink_data default_config []) /\
    annotations_of body !! "peers.lastUpdate" = Some (pretty 1700000000) /\
    (Ok tt = Ok tt ->
     (upsert_configmap default_config []
        (initial (steady_env [] (Ok sample_sink) (HttpResponse 200 "")))).1 = Ok tt /\
     rest = []).
Proof.
  apply (upsert_configmap_carries_over default_config []
           (initial (steady_env [] (Ok sample_sink) (HttpResponse 200 "")))
           sample_sink).
  reflexivity.
Defined.

(** C10 as stated fails: the publish replaces the data as a whole, so a
    third data field of the document read is not in the replacement. *)
Lemma upsert_configmap_drops_other_data :
  owner_notes noted_sink = Some "do not edit by hand" /\
  owner_notes
    <$> omap written
          (trace (upsert_configmap default_config []
                    (initial (steady_env [] (Ok noted_sink) (HttpResponse 200 "")))).2)
  = [None].
Proof. split; vm_compute; reflexivity. Qed.


(** A sink that accepts the publish gets the fields of this peer list. *)
Lemma upsert_configmap_accepted cfg peers w :
  sink_accepts w ->
  exists w' e body,
    upsert_configmap cfg peers w = (Ok tt, w') /\
    trace w' = trace w
               ++ [EReadConfigMap (CONFIGMAP_NAME cfg) (CONFIGMAP_NAMESPACE cfg); e] /\
    written e = Some body /\ cm_data body = Some (sink_data cfg peers).
Proof.
  intros [[[existing Hread]|[msg Hread]] Hwrite];
    unfold upsert_configmap, ensure_clients;
    rewrite bind_run; cbn [ret]; rewrite try_except_run, bind_run;
    unfold read_namespaced_config_map; rewrite Hread.
  - rewrite bind_run. unfold time_time, replace_namespaced_config_map.
    cbn [env write_n emit next_read next_clock]. rewrite Hwrite.
    eexists _, _, _. split; [reflexivity|]. cbn.
    split; [by rewrite <-!app_assoc|]. done.
  - cbn [decide]. rewrite decide_True by done.
    rewrite bind_run. unfold time_time, create_namespaced_config_map.
    cbn [env write_n emit next_read next_clock]. rewrite Hwrite.
    eexists _, _, _. split; [reflexivity|]. cbn.
    split; [by rewrite <-!app_assoc|]. done.
Qed.

End Sink.

(** * The reconciler *)

Section Reconciler.


Lemma patch_count_none tr :
  Forall (fun e => is_patch e = false) tr -> patch_count tr = 0%nat.
Proof.
  unfold patch_count. induction 1 as [|e tr He _ IH]; [done|].
  by rewrite filter_cons, He.
Qed.









Lemma safe_periodic_try cfg : safe (periodic_try cfg).
Proof. apply safe_try_except, safe_print_exc. Qed.



End Reconciler.

(** * The dispatcher *)

Section Dispatcher.





Lemma patch_count_app tr1 tr2 :
  patch_count (tr1 ++ tr2) = (patch_count tr1 + patch_count tr2)%nat.
Proof. unfold patch_count. by rewrite filter_app, length_app. Qed.


(** One upsert with retry is at least one PATCH request and at most one per
    attempt. *)
Lemma upsert_attempts_patches cfg name_fqdn ip ttl backoff indices last w :
  (patch_count (trace w) + (if indices is [] then 0 else 1)
   <= patch_count (trace (upsert_attempts cfg name_fqdn ip ttl backoff indices last w).2)
   <= patch_count (trace w) + length indices)%nat.
Proof.
  revert last w. induction indices as [|i rest IH]; intros last w.
  - cbn [upsert_attempts]. rewrite bind_run. cbn [print ret snd trace emit].
    rewrite patch_count_snoc. cbn. lia.
  - cbn [upsert_attempts length]. rewrite try_except_run, bind_run.
    rewrite pdns_upsert_a_record_run.
    remember (next_http (emit _ w)) as w1 eqn:Ew1.
    assert (Hw1 : patch_count (trace w1) = S (patch_count (trace w))).
    { subst w1. cbn [trace emit next_http]. rewrite patch_count_snoc. cbn. lia. }
    clear Ew1.
    match goal with |- context [match ?r with Ok _ => _ | Raise _ => _ end] =>
      destruct r as [[]|e] end.
    + cbn [ret snd]. lia.
    + rewrite bind_run. unfold time_sleep.
      destruct (Qle_bool 0 (backoff * inject_Z (i + 1))).
      * match goal with |- context [upsert_attempts _ _ _ _ _ _ _ ?w2] =>
          pose proof (IH (Some e) w2) as IH' end.
        cbn [trace emit] in IH'. rewrite patch_count_snoc in IH'. cbn in IH'.
        destruct rest; cbn [length] in *; lia.
      * cbn [snd]. lia.
Qed.





End Dispatcher.

(** * Beyond the stated properties *)

(** ** The selector matcher *)

Section SelectorMore.
Import PyStr PyStrSpec PyStrFacts SelectorSpec.

Lemma split_app sep s1 s2 :
  split sep (s1 +:+ String sep s2) = split sep s1 ++ split sep s2.
Proof.
  induction s1 as [|c s1 IH].
  - rewrite app_nil_l. simpl. by rewrite Ascii.eqb_refl.
  - rewrite app_cons. simpl. destruct (Ascii.eqb c sep).
    + by rewrite IH.
    + rewrite IH. pose proof (split_not_nil sep s1) as Hnil.
      by destruct (split sep s1).
Qed.

Lemma match_clauses_app labels l1 l2 :
  match_clauses labels (l1 ++ l2) = match_clauses labels l1 && match_clauses labels l2.
Proof.
  induction l1 as [|c l1 IH]; [done|]. simpl.
  by destruct (clause_passes labels (strip c)).
Qed.

Lemma match_selector_clauses labels selector :
  _match_selector labels selector = match_clauses labels (split "," selector).
Proof. unfold _match_selector. by destruct (decide (selector = "")) as [->|]. Qed.

(** A selector joined of two with a comma matches exactly when both do. *)
Theorem match_selector_comma (labels : gmap string string) (s1 s2 : string) :
  _match_selector labels (s1 +:+ "," +:+ s2)
  = _match_selector labels s1 && _match_selector labels s2.
Proof.
  change ("," +:+ s2) with (String "," s2).
  by rewrite !match_selector_clauses, split_app, match_clauses_app.
Qed.

Lemma clause_passes_mono (labels labels' : gmap string string) clause :
  labels ⊆ labels' ->
  clause_passes labels clause = true -> clause_passes labels' clause = true.
Proof.
  intros Hsub. unfold clause_passes.
  destruct (decide (clause = "")); [done|].
  destruct (contains_char "=" clause).
  - destruct (split_once "=" clause) as [k [v|]]; [|done].
    rewrite !bool_decide_eq_true. intros Hk. by eapply lookup_weaken.
  - rewrite !bool_decide_eq_true. intros [v Hv]. exists v.
    by eapply lookup_weaken.
Qed.

(** Labels added to a pod never make a selector stop matching it. *)
Theorem match_selector_more_labels
    (labels labels' : gmap string string) (selector : string) :
  labels ⊆ labels' ->
  _match_selector labels selector = true ->
  _match_selector labels' selector = true.
Proof.
  intros Hsub. rewrite !match_selector_clauses.
  induction (split "," selector) as [|c l IH]; [done|]. simpl.
  destruct (clause_passes labels (strip c)) eqn:Hc; [|done].
  by rewrite (clause_passes_mono _ _ _ Hsub Hc).
Qed.

(** The label dns=true with a second label still matches the default
    selector. *)
Lemma match_selector_more_labels_witness :
  _match_selector {["dns" := "true"; "app" := "web"]} "dns=true" = true.
Proof.
  apply (match_selector_more_labels {["dns" := "true"]}).
  - apply insert_mono. apply map_empty_subseteq.
  - reflexivity.
Defined.

Lemma all_chars_split sep p s :
  all_chars (fun c => p c || Ascii.eqb c sep) s = true ->
  Forall (fun piece => all_chars p piece = true) (split sep s).
Proof.
  induction s as [|c s IH]; simpl.
  - intros _. by repeat constructor.
  - intros [Hc Hs]%andb_prop. specialize (IH Hs).
    destruct (Ascii.eqb c sep) eqn:Ec.
    + by constructor.
    + pose proof (split_not_nil sep s) as Hnil.
      destruct (split sep s) as [|h t]; [done|].
      inversion IH; subst. constructor; [|done]. simpl.
      rewrite orb_false_r in Hc. by rewrite Hc.
Qed.

Lemma strip_by_all drop s : all_chars drop s = true -> strip_by drop s = "".
Proof.
  intros Hs. unfold strip_by. apply rstrip_by_all.
  induction s as [|c s IH]; [done|]. simpl in *.
  apply andb_prop in Hs as [Hc Hs]. rewrite Hc. auto.
Qed.

(** A selector of blanks and commas only matches every pod. *)
Theorem match_selector_blank (labels : gmap string string) (selector : string) :
  all_chars blank_or_comma selector = true ->
  _match_selector labels selector = true.
Proof.
  intros Hs%all_chars_split. rewrite match_selector_clauses.
  induction Hs as [|c l Hc _ IH]; [done|]. simpl.
  unfold strip. rewrite strip_by_all by done. done.
Qed.

(** Two commas between blanks select every pod, labelled or not. *)
Lemma match_selector_blank_witness :
  _match_selector ∅ " , ," = true.
Proof. apply match_selector_blank. reflexivity. Defined.

End SelectorMore.

(** ** The DNS client: how the retry waits and where it gives up *)

Section RetryMore.

Lemma sleeps_app tr1 tr2 : sleeps (tr1 ++ tr2) = sleeps tr1 ++ sleeps tr2.
Proof. apply omap_app. Qed.

Lemma upsert_attempts_sleeps cfg name_fqdn ip ttl backoff indices :
  (0 <= backoff)%Q -> Forall (fun i => 0 <= i) indices ->
  forall last n w, fails_then_succeeds n w ->
  exists tr,
    trace (upsert_attempts cfg name_fqdn ip ttl backoff indices last w).2
      = trace w ++ tr /\
    sleeps tr = (fun i => (backoff * inject_Z (i + 1))%Q) <$> take n indices.
Proof.
  intros Hb. induction 1 as [|i rest Hi Hrest IH]; intros last n w [Hfail Hok].
  - eexists. split; [reflexivity|]. by rewrite take_nil.
  - cbn [upsert_attempts]. rewrite try_except_run, bind_run.
    destruct n as [|n].
    + rewrite Nat.add_0_r in Hok.
      pose proof (upsert_succeeding_returns cfg name_fqdn ip ttl w Hok) as Hr.
      rewrite pdns_upsert_a_record_run in *. cbn [fst] in Hr. rewrite Hr.
      eexists. split; [reflexivity|]. done.
    + destruct (upsert_failing_raises cfg name_fqdn ip ttl w) as [e Hr].
      { specialize (Hfail 0%nat). rewrite Nat.add_0_r in Hfail. apply Hfail. lia. }
      rewrite pdns_upsert_a_record_run in *. cbn [fst] in Hr. rewrite Hr.
      rewrite bind_run. unfold time_sleep at 1. rewrite sleep_length_ok by done.
      match goal with |- context [upsert_attempts _ _ _ _ _ _ _ ?w1] =>
        destruct (IH (Some e) n w1) as (tr & Htr & Hsl) end.
      { split; cbn [env http_n emit next_http].
        - intros j Hj. replace (S (http_n w) + j)%nat with (http_n w + S j)%nat by lia.
          apply Hfail. lia.
        - by replace (S (http_n w) + n)%nat with (http_n w + S n)%nat by lia. }
      eexists (_ :: _ :: tr). rewrite Htr. cbn [trace emit next_http].
      split; [by rewrite <-!app_assoc|].
      cbn [sleeps omap list_omap slept]. fold (sleeps tr). by rewrite Hsl.
Qed.

Lemma take_range n attempts :
  0 <= attempts -> take n (range attempts) = range (Z.min (Z.of_nat n) attempts).
Proof.
  intros Ha. unfold range. rewrite <-fmap_take, take_seq. do 2 f_equal. lia.
Qed.

(** The backoff is linear and follows every failure, the last one too:
    against a DNS API that fails [n] times, the retry sleeps [backoff],
    [2 * backoff], ... once per failed attempt, and nothing else. *)
Theorem pdns_upsert_with_retry_sleeps
    (cfg : Config) (name_fqdn ip : string) (ttl attempts : Z) (backoff : Q)
    (n : nat) (w : World) :
  0 <= attempts -> (0 <= backoff)%Q -> fails_then_succeeds n w ->
  exists tr,
    trace (pdns_upsert_with_retry cfg name_fqdn ip ttl attempts backoff w).2
      = trace w ++ tr /\
    sleeps tr = (fun i => (backoff * inject_Z (i + 1))%Q)
                  <$> range (Z.min (Z.of_nat n) attempts).
Proof.
  intros Ha Hb Hn. unfold pdns_upsert_with_retry.
  destruct (upsert_attempts_sleeps cfg name_fqdn ip ttl backoff (range attempts)
              Hb (range_nonneg attempts) None n w Hn) as (tr & Htr & Hsl).
  exists tr. split; [done|]. by rewrite Hsl, take_range.
Qed.

(** With the defaults and a DNS API that never recovers in time, the six
    attempts are followed by sleeps of 2, 4, 6, 8, 10 and 12 seconds. *)
Lemma pdns_upsert_with_retry_sleeps_witness :
  exists tr,
    trace (pdns_upsert_with_retry default_config "web-0.example.com." "10.0.0.1" 30
             default_attempts default_backoff (initial (flaky_env 7))).2 = [] ++ tr /\
    sleeps tr = (fun i => (default_backoff * inject_Z (i + 1))%Q) <$> [0; 1; 2; 3; 4; 5].
Proof.
  apply (pdns_upsert_with_retry_sleeps default_config "web-0.example.com."
           "10.0.0.1" 30 default_attempts default_backoff 7 (initial (flaky_env 7))).
  - unfold default_attempts. lia.
  - discriminate.
  - split.
    + intros i Hi. do 7 (destruct i as [|i]; [simpl; lia|]). lia.
    + simpl. lia.
Defined.

(** Without attempts to make there is no request: the retry reports the
    failure, with no error to name, and returns [False]. *)
Theorem pdns_upsert_with_retry_no_attempts
    (cfg : Config) (name_fqdn ip : string) (ttl attempts : Z) (backoff : Q) (w : World) :
  attempts <= 0 ->
  pdns_upsert_with_retry cfg name_fqdn ip ttl attempts backoff w
  = (Ok false,
     emit (EPrint ("[pdns] upsert failed after retries for " +:+ name_fqdn
                   +:+ ": None")) w).
Proof.
  intros Ha. unfold pdns_upsert_with_retry, range.
  replace (Z.to_nat attempts) with 0%nat by lia. reflexivity.
Qed.

Lemma pdns_upsert_with_retry_no_attempts_witness :
  pdns_upsert_with_retry default_config "web-0.example.com." "10.0.0.1" 30 0
    default_backoff (initial (flaky_env 0))
  = (Ok false,
     emit (EPrint "[pdns] upsert failed after retries for web-0.example.com.: None")
       (initial (flaky_env 0))).
Proof.
  apply (pdns_upsert_with_retry_no_attempts default_config "web-0.example.com."
           "10.0.0.1" 30 0 default_backoff (initial (flaky_env 0))).
  lia.
Defined.

Lemma sleep_length_negative (backoff : Q) (i : Z) :
  (backoff < 0)%Q -> 0 <= i -> Qle_bool 0 (backoff * inject_Z (i + 1)) = false.
Proof.
  intros Hb Hi. apply not_true_is_false. intros H%Qle_bool_iff.
  destruct backoff as [p q]. unfold Qlt, Qle, Qmult, inject_Z in *. simpl in *. nia.
Qed.

(** A negative backoff ends the retry at the first failure: the sleep
    refuses the negative length, and its [ValueError] leaves the retry after
    one request. *)
Theorem pdns_upsert_with_retry_negative_backoff
    (cfg : Config) (name_fqdn ip : string) (ttl attempts : Z) (backoff : Q) (w : World) :
  0 < attempts -> (backoff < 0)%Q ->
  upsert_failing (http_reply (env w) (http_n w)) ->
  pdns_upsert_with_retry cfg name_fqdn ip ttl attempts backoff w
  = (Raise (ValueError "sleep length must be non-negative"),
     next_http (emit (EHttpPatch (_zone_url cfg) (_pdns_headers cfg)
                        (PyJson.dumps None (upsert_payload name_fqdn ip ttl))
                        (VERIFY_SSL cfg) 10) w)).
Proof.
  intros Ha Hb Hfail. unfold pdns_upsert_with_retry, range.
  destruct (Z.to_nat attempts) as [|k] eqn:Hk; [lia|].
  cbn [seq List.map upsert_attempts]. rewrite try_except_run, bind_run.
  destruct (upsert_failing_raises cfg name_fqdn ip ttl w Hfail) as [e Hr].
  rewrite pdns_upsert_a_record_run in *. cbn [fst] in Hr. rewrite Hr.
  rewrite bind_run. unfold time_sleep at 1.
  by rewrite sleep_length_negative.
Qed.

Lemma pdns_upsert_with_retry_negative_backoff_witness :
  (pdns_upsert_with_retry default_config "web-0.example.com." "10.0.0.1" 30
     default_attempts (-1)%Q (initial (flaky_env 1))).1
  = Raise (ValueError "sleep length must be non-negative").
Proof.
  rewrite (pdns_upsert_with_retry_negative_backoff default_config
             "web-0.example.com." "10.0.0.1" 30 default_attempts (-1)%Q
             (initial (flaky_env 1))).
  - reflexivity.
  - unfold default_attempts. lia.
  - reflexivity.
  - simpl. lia.
Defined.

End RetryMore.

(** ** Listing the pods of the watched namespaces *)

Section ListingMore.

Lemma list_each_namespace_all cfg (replies : nat -> list V1Pod) nss :
  forall pods w,
  (forall i, (i < length nss)%nat ->
             list_reply (env w) (list_n w + i) = Ok (replies (list_n w + i)%nat)) ->
  exists w',
    list_each_namespace cfg nss pods w
      = (Ok (pods ++ concat (replies <$> seq (list_n w) (length nss))), w') /\
    trace w' = trace w
               ++ ((fun ns => EListNamespacedPod ns (SOURCE_LABEL_SELECTOR cfg)) <$> nss).
Proof.
  induction nss as [|ns nss IH]; intros pods w Hok.
  - exists w. cbn. by rewrite !app_nil_r.
  - cbn [list_each_namespace]. rewrite bind_run. unfold list_namespaced_pod at 1.
    pose proof (Hok 0%nat ltac:(cbn; lia)) as H0. rewrite Nat.add_0_r in H0.
    rewrite H0.
    match goal with |- context [list_each_namespace _ _ _ ?w1] =>
      destruct (IH (pods ++ replies (list_n w)) w1) as (w' & Hrun & Htr) end.
    { intros i Hi. cbn [env list_n emit next_list].
      replace (S (list_n w) + i)%nat with (list_n w + S i)%nat by lia.
      apply Hok. cbn. lia. }
    exists w'. rewrite Hrun, Htr. cbn [env list_n trace emit next_list length seq].
    rewrite fmap_cons. cbn [concat]. by rewrite <-!app_assoc.
Qed.

(** With namespaces to watch, the listing asks each of them once, in the
    configured order and with the selector, and returns the pods of all of
    them in that order. *)
Theorem list_source_pods_each_namespace
    (cfg : Config) (replies : nat -> list V1Pod) (w : World) :
  WATCH_NAMESPACES cfg <> [] ->
  (forall i, (i < length (WATCH_NAMESPACES cfg))%nat ->
             list_reply (env w) (list_n w + i) = Ok (replies (list_n w + i)%nat)) ->
  exists w',
    list_source_pods cfg w
      = (Ok (concat (replies <$> seq (list_n w) (length (WATCH_NAMESPACES cfg)))), w') /\
    trace w' = trace w
               ++ ((fun ns => EListNamespacedPod ns (SOURCE_LABEL_SELECTOR cfg))
                     <$> WATCH_NAMESPACES cfg).
Proof.
  intros Hnss Hok. unfold list_source_pods, ensure_clients. rewrite bind_run.
  cbn [ret].
  destruct (list_each_namespace_all cfg replies (WATCH_NAMESPACES cfg) [] w Hok)
    as (w' & Hrun & Htr).
  exists w'. split; [|done].
  destruct (WATCH_NAMESPACES cfg) eqn:E; [done|]. by rewrite Hrun.
Qed.

(** Two namespaces: two listings, the pods of "a" before those of "b". *)
Lemma list_source_pods_each_namespace_witness :
  exists w',
    list_source_pods (config_with_namespaces ["a"; "b"])
      (initial (listing_env (fun i => Ok (pods_by_listing i))))
      = (Ok (pods_by_listing 0 ++ pods_by_listing 1 ++ []), w') /\
    trace w' = [] ++ [EListNamespacedPod "a" "dns=true"; EListNamespacedPod "b" "dns=true"].
Proof.
  apply (list_source_pods_each_namespace (config_with_namespaces ["a"; "b"])
           pods_by_listing (initial (listing_env (fun i => Ok (pods_by_listing i))))).
  - discriminate.
  - intros i _. reflexivity.
Defined.

Lemma list_each_namespace_fails cfg nss :
  forall pods w k e,
  (k < length nss)%nat ->
  (forall i, (i < k)%nat -> exists items, list_reply (env w) (list_n w + i) = Ok items) ->
  list_reply (env w) (list_n w + k) = Raise e ->
  exists w',
    list_each_namespace cfg nss pods w = (Raise e, w') /\
    trace w' = trace w
               ++ ((fun ns => EListNamespacedPod ns (SOURCE_LABEL_SELECTOR cfg))
                     <$> take (S k) nss).
Proof.
  induction nss as [|ns nss IH]; intros pods w k e Hk Hok Hfail; [cbn in Hk; lia|].
  cbn [list_each_namespace]. rewrite bind_run. unfold list_namespaced_pod at 1.
  destruct k as [|k].
  - rewrite Nat.add_0_r in Hfail. rewrite Hfail. eexists. split; [reflexivity|].
    done.
  - destruct (Hok 0%nat ltac:(lia)) as [items H0]. rewrite Nat.add_0_r in H0.
    rewrite H0.
    match goal with |- context [list_each_namespace _ _ _ ?w1] =>
      destruct (IH (pods ++ items) w1 k e) as (w' & Hrun & Htr) end.
    { cbn in Hk. lia. }
    { intros i Hi. cbn [env list_n emit next_list].
      replace (S (list_n w) + i)%nat with (list_n w + S i)%nat by lia.
      apply Hok. lia. }
    { cbn [env list_n emit next_list].
      by replace (S (list_n w) + k)%nat with (list_n w + S k)%nat by lia. }
    exists w'. rewrite Hrun, Htr. cbn [trace emit next_list].
    split; [done|]. rewrite firstn_cons, fmap_cons. by rewrite <-!app_assoc.
Qed.

(** The first namespace whose listing fails ends the listing with its
    error: the namespaces after it are not asked, and the pods of those
    before it are dropped. *)
Theorem list_source_pods_first_failure
    (cfg : Config) (w : World) (k : nat) (e : Exn) :
  (k < length (WATCH_NAMESPACES cfg))%nat ->
  (forall i, (i < k)%nat -> exists items, list_reply (env w) (list_n w + i) = Ok items) ->
  list_reply (env w) (list_n w + k) = Raise e ->
  exists w',
    list_source_pods cfg w = (Raise e, w') /\
    trace w' = trace w
               ++ ((fun ns => EListNamespacedPod ns (SOURCE_LABEL_SELECTOR cfg))
                     <$> take (S k) (WATCH_NAMESPACES cfg)).
Proof.
  intros Hk Hok Hfail. unfold list_source_pods, ensure_clients. rewrite bind_run.
  cbn [ret].
  destruct (list_each_namespace_fails cfg (WATCH_NAMESPACES cfg) [] w k e Hk Hok Hfail)
    as (w' & Hrun & Htr).
  exists w'. split; [|done].
  destruct (WATCH_NAMESPACES cfg) eqn:E; [cbn in Hk; lia|]. by rewrite Hrun.
Qed.

(** Of three namespaces the second is refused: the third is not asked. *)
Lemma list_source_pods_first_failure_witness :
  exists w',
    list_source_pods (config_with_namespaces ["a"; "b"; "c"])
      (initial (listing_env second_listing_refused))
      = (Raise (ApiException 403 "(403) Reason: Forbidden"), w') /\
    trace w' = [] ++ [EListNamespacedPod "a" "dns=true"; EListNamespacedPod "b" "dns=true"].
Proof.
  apply (list_source_pods_first_failure (config_with_namespaces ["a"; "b"; "c"])
           (initial (listing_env second_listing_refused)) 1).
  - cbn. lia.
  - intros i Hi. destruct i; [by eexists|lia].
  - reflexivity.
Defined.

End ListingMore.

(** ** The peer projection: ties and missing metadata *)

Section ProjectionMore.

Lemma sort_insert_filter (k : string * string) x l :
  filter (fun y => peer_key y = k) (sort_insert x l)
  = filter (fun y => peer_key y = k) (x :: l).
Proof.
  induction l as [|y l IH]; [done|]. simpl.
  destruct (key_lt (peer_key y) (peer_key x)) eqn:Hlt; [|done].
  rewrite (filter_cons _ y), IH, !filter_cons.
  destruct (decide (peer_key y = k)) as [Hy|Hy]; [|done].
  destruct (decide (peer_key x = k)) as [Hx|Hx]; [|done].
  rewrite Hy, Hx, key_lt_irrefl in Hlt. done.
Qed.

Lemma sort_by_key_filter (k : string * string) l :
  filter (fun y => peer_key y = k) (sort_by_key l)
  = filter (fun y => peer_key y = k) l.
Proof.
  induction l as [|x l IH]; [done|]. simpl.
  by rewrite sort_insert_filter, !filter_cons, IH.
Qed.

(** The sort is stable: the peers of one namespace and name come out in the
    order their pods were listed in. *)
Theorem build_peers_stable
    (pods : list V1Pod) (peers : list Peer) (k : string * string) :
  build_peers pods = Ok peers ->
  filter (fun x => peer_key x = k) peers
  = filter (fun x => peer_key x = k) (omap projected pods).
Proof.
  rewrite build_peers_sorted_projection.
  destruct (existsb nameless pods); [done|]. intros [= <-].
  apply sort_by_key_filter.
Qed.

(** Two listings of pod "p" in namespace "a" keep their order. *)
Lemma build_peers_stable_witness :
  filter (fun x => peer_key x = ("a", "p"))
    [{| peer_name := "p"; peer_namespace := "a"; peer_ip := "10.0.0.1" |};
     {| peer_name := "p"; peer_namespace := "a"; peer_ip := "10.0.0.2" |}]
  = filter (fun x => peer_key x = ("a", "p")) (omap projected twin_pods).
Proof. apply (build_peers_stable twin_pods). reflexivity. Defined.

(** The projection fails exactly on a pod that reports an address but has
    no metadata; a pod without an address is passed over even when its
    metadata is missing. *)
Theorem build_peers_raises_iff (pods : list V1Pod) :
  (exists e, build_peers pods = Raise e) <->
  exists p, p ∈ pods /\ is_Some (reported_ip p) /\ pod_metadata p = None.
Proof.
  rewrite build_peers_sorted_projection.
  destruct (existsb nameless pods) eqn:E.
  - split; [intros _|by eexists].
    apply existsb_exists in E as (p & Hp%list_elem_of_In & Hn).
    exists p. split; [done|]. unfold nameless in Hn.
    destruct (reported_ip p); [|done]. by destruct (pod_metadata p).
  - split; [by intros [e ?]|]. intros (p & Hp & [ip Hip] & Hmd).
    assert (existsb nameless pods = true) as Ht; [|congruence].
    apply existsb_exists. exists p. split; [by apply list_elem_of_In|].
    unfold nameless. by rewrite Hip, Hmd.
Qed.

End ProjectionMore.

(** ** The peer sink: the fields, the first publish and the failures *)

Section SinkMore.

(** The flat field holds every address followed by a line break, so the
    empty text for no peers; the structured field holds the JSON text,
    unless the two field names are configured equal, in which case the flat
    field is the one that stays; there is no third field. *)
Theorem sink_data_fields (cfg : Config) (peers : list Peer) :
  sink_data cfg peers !! CONFIG_FILE_LIST cfg = Some (ip_lines (peer_ip <$> peers)) /\
  (CONFIG_FILE_JSON cfg <> CONFIG_FILE_LIST cfg ->
   sink_data cfg peers !! CONFIG_FILE_JSON cfg
   = Some (PyJson.dumps (Some 2%nat) (peers_json peers))) /\
  (forall k, k <> CONFIG_FILE_JSON cfg -> k <> CONFIG_FILE_LIST cfg ->
             sink_data cfg peers !! k = None).
Proof.
  unfold sink_data. split; [|split].
  - rewrite lookup_insert_eq. f_equal. rewrite <-join_lines.
    by destruct peers.
  - intros Hne. by rewrite lookup_insert_ne, lookup_insert_eq.
  - intros k Hj Hl. by rewrite !lookup_insert_ne.
Qed.

(** When the sink document is reported missing, the publish creates it: no
    replace is sent, and the document created carries the configured name
    and namespace, the two fields, and the last-update annotation alone. *)
Theorem upsert_configmap_creates
    (cfg : Config) (peers : list Peer) (w : World) (msg : string) :
  read_reply (env w) (read_n w) = Raise (ApiException 404 msg) ->
  exists body,
    (upsert_configmap cfg peers w).1 = write_reply (env w) (write_n w) /\
    trace (upsert_configmap cfg peers w).2
      = trace w ++ [EReadConfigMap (CONFIGMAP_NAME cfg) (CONFIGMAP_NAMESPACE cfg);
                    ECreateConfigMap (CONFIGMAP_NAMESPACE cfg) body] /\
    name (cm_metadata body) = CONFIGMAP_NAME cfg /\
    namespace (cm_metadata body) = CONFIGMAP_NAMESPACE cfg /\
    labels (cm_metadata body) = None /\
    annotations (cm_metadata body)
      = Some {[CONFIG_ANNOTATION_BUMP cfg := pretty (clock (env w) (clock_n w))]} /\
    cm_data body = Some (sink_data cfg peers).
Proof.
  intros Hread. eexists.
  remember (upsert_configmap cfg peers w) as out eqn:E. revert E.
  unfold upsert_configmap, ensure_clients.
  rewrite bind_run. cbn [ret]. rewrite try_except_run, bind_run.
  unfold read_namespaced_config_map. rewrite Hread.
  rewrite decide_True by done. rewrite bind_run.
  unfold time_time, create_namespaced_config_map.
  cbn [env trace read_n write_n clock_n emit next_read next_clock].
  intros ->. cbn [fst snd trace emit next_write next_read next_clock].
  split; [done|]. split; [by rewrite <-!app_assoc|]. done.
Qed.

(** The first publish into the sample cluster creates "pod-peers". *)
Lemma upsert_configmap_creates_witness :
  exists body,
    (upsert_configmap default_config sample_peers dns_down).1 = Ok tt /\
    trace (upsert_configmap default_config sample_peers dns_down).2
      = [] ++ [EReadConfigMap "pod-peers" "default"; ECreateConfigMap "default" body] /\
    name (cm_metadata body) = "pod-peers" /\
    namespace (cm_metadata body) = "default" /\
    labels (cm_metadata body) = None /\
    annotations (cm_metadata body) = Some {["peers.lastUpdate" := pretty 1700000000]} /\
    cm_data body = Some (sink_data default_config sample_peers).
Proof.
  apply (upsert_configmap_creates default_config sample_peers dns_down
           "(404) Reason: Not Found").
  reflexivity.
Defined.

(** Any other failure of the read leaves the publish as it is and nothing
    is written: only a 404 leads to a create. *)
Theorem upsert_configmap_read_error
    (cfg : Config) (peers : list Peer) (w : World) (e : Exn) :
  read_reply (env w) (read_n w) = Raise e ->
  (forall msg, e <> ApiException 404 msg) ->
  upsert_configmap cfg peers w
  = (Raise e,
     next_read (emit (EReadConfigMap (CONFIGMAP_NAME cfg) (CONFIGMAP_NAMESPACE cfg)) w)).
Proof.
  intros Hread Hne. unfold upsert_configmap, ensure_clients.
  rewrite bind_run. cbn [ret]. rewrite try_except_run, bind_run.
  unfold read_namespaced_config_map. rewrite Hread.
  destruct e as [m|m|m|status m|m]; try done.
  destruct (decide (status = 404)) as [->|]; [|done]. by destruct (Hne m).
Qed.

(** A sink that answers 500 to the read gets no write. *)
Lemma upsert_configmap_read_error_witness :
  upsert_configmap default_config sample_peers sink_broken
  = (Raise (ApiException 500 "(500) Reason: Internal Server Error"),
     next_read (emit (EReadConfigMap "pod-peers" "default") sink_broken)).
Proof.
  apply (upsert_configmap_read_error default_config sample_peers sink_broken).
  - reflexivity.
  - intros msg. discriminate.
Defined.

(** A document that vanishes between the read and the replace is created
    anew: the replace answered with a 404 is followed by a create, and the
    document created is a fresh one, without the labels and the other
    annotations of the document read. *)
Theorem upsert_configmap_replace_not_found
    (cfg : Config) (peers : list Peer) (w : World) (existing : V1ConfigMap)
    (msg : string) :
  read_reply (env w) (read_n w) = Ok existing ->
  write_reply (env w) (write_n w) = Raise (ApiException 404 msg) ->
  exists body fresh,
    (upsert_configmap cfg peers w).1 = write_reply (env w) (S (write_n w)) /\
    trace (upsert_configmap cfg peers w).2
      = trace w ++ [EReadConfigMap (CONFIGMAP_NAME cfg) (CONFIGMAP_NAMESPACE cfg);
                    EReplaceConfigMap (CONFIGMAP_NAME cfg) (CONFIGMAP_NAMESPACE cfg) body;
                    ECreateConfigMap (CONFIGMAP_NAMESPACE cfg) fresh] /\
    labels (cm_metadata fresh) = None /\
    annotations (cm_metadata fresh)
      = Some {[CONFIG_ANNOTATION_BUMP cfg := pretty (clock (env w) (S (clock_n w)))]} /\
    cm_data fresh = Some (sink_data cfg peers).
Proof.
  intros Hread Hwrite. eexists _, _.
  remember (upsert_configmap cfg peers w) as out eqn:E. revert E.
  unfold upsert_configmap, ensure_clients.
  rewrite bind_run. cbn [ret]. rewrite try_except_run, bind_run.
  unfold read_namespaced_config_map. rewrite Hread.
  rewrite bind_run. unfold time_time at 1.
  unfold replace_namespaced_config_map.
  cbn [env trace read_n write_n clock_n emit next_read next_clock].
  rewrite Hwrite. rewrite decide_True by done. rewrite bind_run.
  unfold time_time, create_namespaced_config_map.
  cbn [env trace read_n write_n clock_n emit next_read next_clock next_write].
  intros ->. cbn [fst snd trace emit next_write next_read next_clock].
  split; [done|]. split; [by rewrite <-!app_assoc|]. done.
Qed.

(** The sample document vanishes: replace, then create. *)
Lemma upsert_configmap_replace_not_found_witness :
  exists body fresh,
    (upsert_configmap default_config sample_peers (initial vanishing_env)).1 = Ok tt /\
    trace (upsert_configmap default_config sample_peers (initial vanishing_env)).2
      = [] ++ [EReadConfigMap "pod-peers" "default";
               EReplaceConfigMap "pod-peers" "default" body;
               ECreateConfigMap "default" fresh] /\
    labels (cm_metadata fresh) = None /\
    annotations (cm_metadata fresh) = Some {["peers.lastUpdate" := pretty 1700000000]} /\
    cm_data fresh = Some (sink_data default_config sample_peers).
Proof.
  apply (upsert_configmap_replace_not_found default_config sample_peers
           (initial vanishing_env) sample_sink "(404) Reason: Not Found");
    reflexivity.
Defined.

End SinkMore.

(** ** The reconciler: what a pass sends to the DNS API *)

Section ReconcilerMore.

Lemma grows_list_each_namespace_lists cfg nss pods :
  grows (fun e => is_list_call e = true) (list_each_namespace cfg nss pods).
Proof.
  revert pods. induction nss as [|ns nss IH]; intros pods; simpl; grows_all.
  apply IH.
Qed.

Lemma grows_list_source_pods_lists cfg :
  grows (fun e => is_list_call e = true) (list_source_pods cfg).
Proof.
  unfold list_source_pods, ensure_clients. grows_step; [grows_all|].
  destruct (WATCH_NAMESPACES cfg); [grows_all|apply grows_list_each_namespace_lists].
Qed.

(** A pass whose listing fails ends there with the error of the listing:
    after its start line it has only asked the cluster for pods, and has
    sent nothing to the DNS API and nothing to the sink. *)
Theorem reconcile_all_listing_fails
    (cfg : Config) (reason : string) (w w1 : World) (e : Exn) :
  list_source_pods cfg (pass_begun reason w) = (Raise e, w1) ->
  reconcile_all cfg reason w = (Raise e, w1) /\
  exists tr,
    trace w1 = trace w ++ EPrint ("[reconcile] start (" +:+ reason +:+ ")") :: tr /\
    Forall (fun e => is_list_call e = true) tr.
Proof.
  intros Hlist. split.
  - unfold reconcile_all. rewrite bind_run. cbn [print]. fold (pass_begun reason w).
    by rewrite bind_run, Hlist.
  - destruct (grows_list_source_pods_lists cfg _ _ _ Hlist) as (tr & Htr & Hall).
    exists tr. split; [|done]. rewrite Htr. cbn [pass_begun trace emit].
    by rewrite <-app_assoc.
Qed.

Lemma reconcile_all_listing_fails_witness :
  reconcile_all default_config "periodic" listing_refused
  = (Raise (ApiException 403 "(403) Reason: Forbidden"),
     next_list (emit (EListPodForAllNamespaces "dns=true")
                  (pass_begun "periodic" listing_refused))) /\
  exists tr,
    trace (next_list (emit (EListPodForAllNamespaces "dns=true")
                        (pass_begun "periodic" listing_refused)))
      = [] ++ EPrint "[reconcile] start (periodic)" :: tr /\
    Forall (fun e => is_list_call e = true) tr.
Proof.
  apply (reconcile_all_listing_fails default_config "periodic" listing_refused).
  reflexivity.
Defined.

Lemma patch_count_calm_run {A} (m : M A) w r w' :
  grows calm m -> m w = (r, w') -> patch_count (trace w') = patch_count (trace w).
Proof.
  intros Hg Hrun. destruct (Hg _ _ _ Hrun) as (tr & -> & Hall).
  rewrite patch_count_app, (patch_count_none tr); [lia|].
  eapply Forall_impl; [exact Hall|]. by intros ? [? _].
Qed.

Lemma upsert_each_peer_patches cfg peers w :
  exists w',
    upsert_each_peer cfg peers w = (Ok tt, w') /\
    (patch_count (trace w) + length peers
     <= patch_count (trace w')
     <= patch_count (trace w) + 6 * length peers)%nat.
Proof.
  revert w. induction peers as [|peer rest IH]; intros w.
  - exists w. split; [done|]. cbn. lia.
  - cbn [upsert_each_peer]. rewrite bind_run.
    pose proof (upsert_attempts_patches cfg (fqdn_for_pod cfg (peer_name peer))
                  (peer_ip peer) (DNS_TTL cfg) default_backoff
                  (range default_attempts) None w) as Hp.
    destruct (safe_pdns_upsert_with_retry cfg (fqdn_for_pod cfg (peer_name peer))
                (peer_ip peer) (DNS_TTL cfg) w) as (b & w1 & Hrun).
    unfold pdns_upsert_with_retry in Hrun |- *. rewrite Hrun in Hp |- *.
    change (range default_attempts) with [0; 1; 2; 3; 4; 5] in Hp.
    cbn [snd length] in Hp.
    destruct (IH w1) as (w' & Hrest & Hc). exists w'. split; [done|].
    cbn [length]. lia.
Qed.

(** A pass that finds the DNS API ready upserts every peer: it sends at
    least one request per peer and at most six, so none when there is no
    peer, whatever the DNS API answers to them. *)
Theorem reconcile_all_upserts_every_peer
    (cfg : Config) (reason : string) (w w1 : World)
    (pods : list V1Pod) (peers : list Peer) (text : string) :
  list_source_pods cfg (pass_begun reason w) = (Ok pods, w1) ->
  build_peers pods = Ok peers ->
  http_reply (env w1) (http_n w1) = HttpResponse 200 text ->
  (patch_count (trace w) + length peers
   <= patch_count (trace (reconcile_all cfg reason w).2)
   <= patch_count (trace w) + 6 * length peers)%nat.
Proof.
  intros Hlist Hbuild Hprobe.
  pose proof (patch_count_calm_run _ _ _ _ (grows_list_source_pods cfg) Hlist) as Hc1.
  cbn [pass_begun trace emit] in Hc1. rewrite patch_count_snoc in Hc1. cbn in Hc1.
  remember (reconcile_all cfg reason w) as out eqn:E. revert E.
  unfold reconcile_all. rewrite bind_run. cbn [print]. fold (pass_begun reason w).
  rewrite bind_run, Hlist, bind_run. unfold lift at 1. rewrite Hbuild.
  rewrite bind_run, pdns_ready_run, Hprobe. rewrite bool_decide_eq_true_2 by done.
  rewrite bind_run.
  match goal with |- context [upsert_each_peer cfg peers ?w2] =>
    destruct (upsert_each_peer_patches cfg peers w2) as (w3 & -> & Hc3) end.
  cbn [trace emit next_http] in Hc3. rewrite patch_count_snoc in Hc3. cbn in Hc3.
  rewrite bind_run.
  destruct (upsert_configmap cfg peers w3) as [[[]|e] w4] eqn:Hup;
    pose proof (patch_count_calm_run _ _ _ _ (grows_upsert_configmap cfg peers) Hup) as Hc4;
    intros ->.
  - cbn [print snd trace emit]. rewrite patch_count_snoc. cbn. lia.
  - cbn [snd]. lia.
Qed.

(** The two peers of the sample cluster: two requests, the DNS API answering
    200 to each. *)
Lemma reconcile_all_upserts_every_peer_witness :
  (0 + 2 <= patch_count (trace (reconcile_all default_config "startup" all_well).2)
   <= 0 + 6 * 2)%nat.
Proof.
  apply (reconcile_all_upserts_every_peer default_config "startup" all_well
           (next_list (emit (EListPodForAllNamespaces "dns=true")
                         (pass_begun "startup" all_well)))
           sample_pods sample_peers ""); reflexivity.
Defined.

End ReconcilerMore.

Section ReconcilerHealthy.

Lemma patches_app tr1 tr2 : patches (tr1 ++ tr2) = patches tr1 ++ patches tr2.
Proof. apply filter_app. Qed.

Lemma patches_none tr : Forall calm tr -> patches tr = [].
Proof.
  unfold patches. induction 1 as [|e tr [He _] _ IH]; [done|].
  by rewrite filter_cons, He.
Qed.

Lemma patches_calm_run {A} (m : M A) w r w' :
  grows calm m -> m w = (r, w') -> patches (trace w') = patches (trace w).
Proof.
  intros Hg Hrun. destruct (Hg _ _ _ Hrun) as (tr & -> & Hall).
  by rewrite patches_app, (patches_none tr), app_nil_r.
Qed.

Lemma patches_upsert_requests cfg peers :
  patches (upsert_request cfg <$> peers) = upsert_request cfg <$> peers.
Proof.
  unfold patches. induction peers as [|p peers IH]; [done|].
  rewrite fmap_cons, filter_cons. cbn. by rewrite IH.
Qed.

Lemma pdns_upsert_with_retry_first_success cfg name_fqdn ip ttl w :
  upsert_succeeding (http_reply (env w) (http_n w)) ->
  pdns_upsert_with_retry cfg name_fqdn ip ttl default_attempts default_backoff w
  = (Ok true,
     next_http (emit (EHttpPatch (_zone_url cfg) (_pdns_headers cfg)
                        (PyJson.dumps None (upsert_payload name_fqdn ip ttl))
                        (VERIFY_SSL cfg) 10) w)).
Proof.
  intros Hok. unfold pdns_upsert_with_retry.
  change (range default_attempts) with [0; 1; 2; 3; 4; 5].
  cbn [upsert_attempts]. rewrite try_except_run, bind_run.
  pose proof (upsert_succeeding_returns cfg name_fqdn ip ttl w Hok) as Hr.
  rewrite pdns_upsert_a_record_run in *. cbn [fst] in Hr. by rewrite Hr.
Qed.

Lemma upsert_each_peer_healthy cfg peers :
  forall w,
  (forall i, upsert_succeeding (http_reply (env w) (http_n w + i))) ->
  exists w',
    upsert_each_peer cfg peers w = (Ok tt, w') /\
    trace w' = trace w ++ (upsert_request cfg <$> peers).
Proof.
  induction peers as [|peer rest IH]; intros w Hok.
  - exists w. by rewrite app_nil_r.
  - cbn [upsert_each_peer]. rewrite bind_run.
    rewrite pdns_upsert_with_retry_first_success.
    2:{ specialize (Hok 0%nat). by rewrite Nat.add_0_r in Hok. }
    match goal with |- context [upsert_each_peer cfg rest ?w1] =>
      destruct (IH w1) as (w' & Hrun & Htr) end.
    { intros i. cbn [env http_n emit next_http].
      replace (S (http_n w) + i)%nat with (http_n w + S i)%nat by lia. apply Hok. }
    exists w'. split; [done|]. rewrite Htr. cbn [trace emit next_http].
    rewrite fmap_cons. by rewrite <-app_assoc.
Qed.

(** Against a healthy DNS API a pass sends one request per peer and no
    other: the upsert of each peer's record to its address, in the order of
    the peer list. *)
Theorem reconcile_all_upserts_in_order
    (cfg : Config) (reason : string) (w w1 : World)
    (pods : list V1Pod) (peers : list Peer) (text : string) :
  list_source_pods cfg (pass_begun reason w) = (Ok pods, w1) ->
  build_peers pods = Ok peers ->
  http_reply (env w1) (http_n w1) = HttpResponse 200 text ->
  (forall i, upsert_succeeding (http_reply (env w1) (S (http_n w1) + i))) ->
  patches (trace (reconcile_all cfg reason w).2)
  = patches (trace w) ++ (upsert_request cfg <$> peers).
Proof.
  intros Hlist Hbuild Hprobe Hok.
  pose proof (patches_calm_run _ _ _ _ (grows_list_source_pods cfg) Hlist) as Hc1.
  cbn [pass_begun trace emit] in Hc1. rewrite patches_app in Hc1.
  cbn in Hc1. rewrite app_nil_r in Hc1.
  unfold reconcile_all. rewrite bind_run. cbn [print]. fold (pass_begun reason w).
  rewrite bind_run, Hlist, bind_run. unfold lift at 1. rewrite Hbuild.
  rewrite bind_run, pdns_ready_run, Hprobe. rewrite bool_decide_eq_true_2 by done.
  rewrite bind_run.
  match goal with |- context [upsert_each_peer cfg peers ?w2] =>
    destruct (upsert_each_peer_healthy cfg peers w2) as (w3 & -> & Htr3) end.
  { intros i. apply Hok. }
  cbn [trace emit next_http] in Htr3.
  rewrite bind_run.
  destruct (upsert_configmap cfg peers w3) as [[[]|e] w4] eqn:Hup;
    pose proof (patches_calm_run _ _ _ _ (grows_upsert_configmap cfg peers) Hup) as Hc4.
  - cbn [print snd trace emit]. rewrite patches_app. cbn.
    rewrite app_nil_r, Hc4, Htr3, !patches_app, Hc1. cbn.
    by rewrite app_nil_r, patches_upsert_requests.
  - cbn [snd]. rewrite Hc4, Htr3, !patches_app, Hc1. cbn.
    by rewrite app_nil_r, patches_upsert_requests.
Qed.

(** The sample cluster: the records of p1 and p3, in that order. *)
Lemma reconcile_all_upserts_in_order_witness :
  patches (trace (reconcile_all default_config "startup" all_well).2)
  = [] ++ (upsert_request default_config <$> sample_peers).
Proof.
  apply (reconcile_all_upserts_in_order default_config "startup" all_well
           (next_list (emit (EListPodForAllNamespaces "dns=true")
                         (pass_begun "startup" all_well)))
           sample_pods sample_peers "");
    [reflexivity|reflexivity|reflexivity|intros i; reflexivity].
Defined.

End ReconcilerHealthy.

(** ** The timer *)

Section TimerMore.

(** While the DNS API is not ready a turn of the timer does nothing but
    probe it: the cluster is not asked for pods and the sink is not
    written. *)
Theorem periodic_try_waits_for_dns (cfg : Config) (w : World) :
  probe_not_ready (http_reply (env w) (http_n w)) ->
  periodic_try cfg w = (Ok tt, next_http (emit (probe_request cfg) w)).
Proof.
  intros Hprobe. unfold periodic_try. rewrite try_except_run, bind_run.
  rewrite pdns_ready_run.
  destruct (http_reply (env w) (http_n w)) as [status text|e]; [|done].
  cbn in Hprobe. by rewrite bool_decide_eq_false_2.
Qed.

Lemma periodic_try_waits_for_dns_witness :
  periodic_try default_config dns_down
  = (Ok tt, next_http (emit (probe_request default_config) dns_down)).
Proof. apply (periodic_try_waits_for_dns default_config dns_down). exact I. Defined.

(** With an interval that is not negative a turn of the timer returns,
    whatever the cluster, the DNS API and the sink do, and it ends with the
    sleep of the interval. *)
Theorem periodic_turn_returns (cfg : Config) (w : World) :
  0 <= RECONCILE_INTERVAL cfg ->
  exists w1,
    periodic_try cfg w = (Ok tt, w1) /\
    _periodic_reconciler_turn cfg w
    = (Ok tt, emit (ESleep (inject_Z (RECONCILE_INTERVAL cfg))) w1).
Proof.
  intros Hi. destruct (safe_periodic_try cfg w) as ([] & w1 & Hrun).
  exists w1. split; [done|]. unfold _periodic_reconciler_turn.
  rewrite bind_run, Hrun. unfold time_sleep.
  replace (Qle_bool 0 (inject_Z (RECONCILE_INTERVAL cfg))) with true; [done|].
  symmetry. apply Qle_bool_iff. change 0%Q with (inject_Z 0). by rewrite <-Zle_Qle.
Qed.

Lemma periodic_turn_returns_witness :
  exists w1,
    periodic_try default_config sink_broken = (Ok tt, w1) /\
    _periodic_reconciler_turn default_config sink_broken
    = (Ok tt, emit (ESleep (inject_Z 30)) w1).
Proof. apply (periodic_turn_returns default_config sink_broken). simpl. lia. Defined.

(** A negative interval is the one thing that ends the timer: the work of
    the turn is done, then the sleep refuses the length and its
    [ValueError] leaves the loop. *)
Theorem periodic_turn_negative_interval (cfg : Config) (w : World) :
  RECONCILE_INTERVAL cfg < 0 ->
  exists w1,
    periodic_try cfg w = (Ok tt, w1) /\
    _periodic_reconciler_turn cfg w
    = (Raise (ValueError "sleep length must be non-negative"), w1).
Proof.
  intros Hi. destruct (safe_periodic_try cfg w) as ([] & w1 & Hrun).
  exists w1. split; [done|]. unfold _periodic_reconciler_turn.
  rewrite bind_run, Hrun. unfold time_sleep.
  replace (Qle_bool 0 (inject_Z (RECONCILE_INTERVAL cfg))) with false; [done|].
  symmetry. apply not_true_is_false. intros H%Qle_bool_iff.
  change 0%Q with (inject_Z 0) in H. rewrite <-Zle_Qle in H. lia.
Qed.

Lemma periodic_turn_negative_interval_witness :
  exists w1,
    periodic_try (config_with_interval (-1)) dns_down = (Ok tt, w1) /\
    _periodic_reconciler_turn (config_with_interval (-1)) dns_down
    = (Raise (ValueError "sleep length must be non-negative"), w1).
Proof.
  apply (periodic_turn_negative_interval (config_with_interval (-1)) dns_down).
  simpl. lia.
Defined.

End TimerMore.

(** ** One turn of a watch loop *)

Section WatchMore.





End WatchMore.

(** ** The reconciler: the publish does not depend on the DNS API *)

Section PublishMore.

Lemma upsert_attempts_keeps_cluster cfg name_fqdn ip ttl backoff indices :
  forall last w,
  let w' := (upsert_attempts cfg name_fqdn ip ttl backoff indices last w).2 in
  env w' = env w /\ read_n w' = read_n w /\ write_n w' = write_n w.
Proof.
  induction indices as [|i rest IH]; intros last w; [done|].
  cbn [upsert_attempts]. cbv zeta. rewrite try_except_run, bind_run.
  rewrite pdns_upsert_a_record_run.
  match goal with |- context [match ?r with Ok _ => _ | Raise _ => _ end] =>
    destruct r as [[]|e] end; [done|].
  rewrite bind_run. unfold time_sleep.
  destruct (Qle_bool 0 (backoff * inject_Z (i + 1))); [|done].
  match goal with |- context [upsert_attempts _ _ _ _ _ _ _ ?w1] =>
    destruct (IH (Some e) w1) as (-> & -> & ->) end.
  done.
Qed.

Lemma upsert_each_peer_keeps_cluster cfg peers :
  forall w w', upsert_each_peer cfg peers w = (Ok tt, w') ->
  env w' = env w /\ read_n w' = read_n w /\ write_n w' = write_n w.
Proof.
  induction peers as [|peer rest IH]; intros w w'.
  - by intros [= <-].
  - cbn [upsert_each_peer]. rewrite bind_run. unfold pdns_upsert_with_retry.
    pose proof (upsert_attempts_keeps_cluster cfg (fqdn_for_pod cfg (peer_name peer))
                  (peer_ip peer) (DNS_TTL cfg) default_backoff
                  (range default_attempts) None w) as Hk.
    cbv zeta in Hk.
    destruct (upsert_attempts _ _ _ _ _ _ _ w) as [[b|e] w1]; [|done].
    cbn [snd] in Hk. destruct Hk as (E1 & E2 & E3).
    intros (-> & -> & ->)%IH. done.
Qed.

(** Once the pods are listed and projected, a pass publishes whatever the
    DNS API does with the probe and with the upserts: a sink that accepts
    the publish gets the fields of the current peer list, and the pass
    returns. *)
Theorem reconcile_all_publishes_whatever_dns
    (cfg : Config) (reason : string) (w w1 : World)
    (pods : list V1Pod) (peers : list Peer) :
  list_source_pods cfg (pass_begun reason w) = (Ok pods, w1) ->
  build_peers pods = Ok peers ->
  sink_accepts w1 ->
  exists w' tr body,
    reconcile_all cfg reason w = (Ok tt, w') /\
    trace w' = trace w ++ tr /\
    writes body tr /\ cm_data body = Some (sink_data cfg peers).
Proof.
  intros Hlist Hbuild Hsink.
  destruct (grows_list_source_pods cfg _ _ _ Hlist) as (tr1 & Ht1 & _).
  cbn [pass_begun trace emit] in Ht1.
  unfold reconcile_all. rewrite bind_run. cbn [print]. fold (pass_begun reason w).
  rewrite bind_run, Hlist, bind_run. unfold lift at 1. rewrite Hbuild.
  rewrite bind_run, pdns_ready_run, bind_run.
  set (w2 := next_http (emit _ w1)).
  assert (exists w3 tr3,
            (if match http_reply (env w1) (http_n w1) with
                | HttpResponse status _ => bool_decide (status = 200)
                | HttpFailure _ => false
                end
             then upsert_each_peer cfg peers
             else print "[pdns] API not ready; will retry later") w2 = (Ok tt, w3) /\
            trace w3 = trace w2 ++ tr3 /\ sink_accepts w3) as (w3 & tr3 & -> & Ht3 & Hs3).
  { match goal with |- context [if ?b then _ else _] => destruct b end.
    - destruct (safe_upsert_each_peer cfg peers w2) as ([] & w3 & Hrun).
      destruct (grows_upsert_each_peer cfg peers _ _ _ Hrun) as (tr3 & Ht3 & _).
      destruct (upsert_each_peer_keeps_cluster cfg peers _ _ Hrun) as (E1 & E2 & E3).
      exists w3, tr3. split; [done|]. split; [done|].
      unfold sink_accepts. rewrite E1, E2, E3. exact Hsink.
    - eexists _, [_]. split; [reflexivity|]. split; [reflexivity|]. exact Hsink. }
  rewrite bind_run.
  destruct (upsert_configmap_accepted cfg peers w3 Hs3)
    as (w4 & e & body & -> & Ht4 & He & Hdata).
  eexists _, _, body. split; [reflexivity|]. cbn [trace emit].
  split; [|split; [|done]].
  - rewrite Ht4, Ht3. unfold w2. cbn [trace emit next_http]. rewrite Ht1.
    rewrite <-!app_assoc. reflexivity.
  - exists e. split; [|done]. set_solver.
Qed.

(** The sample cluster with a DNS API that is ready and then refuses every
    upsert still has its sink document created. *)
Lemma reconcile_all_publishes_whatever_dns_witness :
  exists w' tr body,
    reconcile_all default_config "startup" upserts_refused = (Ok tt, w') /\
    trace w' = [] ++ tr /\
    writes body tr /\ cm_data body = Some (sink_data default_config sample_peers).
Proof.
  apply (reconcile_all_publishes_whatever_dns default_config "startup" upserts_refused
           (next_list (emit (EListPodForAllNamespaces "dns=true")
                         (pass_begun "startup" upserts_refused)))
           sample_pods sample_peers).
  - reflexivity.
  - reflexivity.
  - split; [right; by eexists|reflexivity].
Defined.

End PublishMore.
